(** * Plinko reference implementation: iPRF and TablePRP

    A shallow embedding of [plinko-reference/iprf.py] and
    [plinko-reference/table_prp.py], and of the balance clamp and the
    writing loop of [scripts/build_database_from_parquet.py].

    Conventions.
    - Python integers are [Z]; a fixed-width byte string (a cipher block,
      a packed [struct] buffer, a digest) is the big-endian integer it
      spells, so "the first 8 bytes" of a 16-byte block [b] is
      [Z.shiftr b 64].  Keys, whose length is tested, are [list byte].
    - Python floats are IEEE-754 binary64, i.e. Rocq's primitive floats.
      The arithmetic is taken with its IEEE results: the conditions under
      which CPython turns a float result into an exception (a zero
      divisor, [math.sqrt] of a negative number, [round] of a non-finite
      value) are not part of the embedding.
    - Lists and integers are unbounded: running out of memory is not
      part of the embedding.
    - Exceptions that the integer code can raise are results: [Raise e].
      A loop that the embedding runs on fuel yields [Diverge] when the
      fuel is gone; every such loop is shown never to get there.
    - AES-128 (package [cryptography]), SHA-256 ([hashlib]) and the libm
      functions [pow] and [log2] are external: they are Section
      variables. *)

From Stdlib Require Import ZArith List Lia Bool Floats.
From Stdlib Require Import Sorting.Sorted Sorting.Permutation Sorting.Mergesort Orders.
From Stdlib Require Import Init.Byte.
From stdpp Require Import base gmap list.
Import ListNotations.

#[local] Set Warnings "-inexact-float".
#[local] Open Scope Z_scope.

(** ** Results of calls *)

Inductive exn : Set :=
| ValueError
| StructError
| IndexError
| KeyError.

Inductive res (A : Type) : Type :=
| Ok (a : A)
| Raise (e : exn)
| Diverge.

Arguments Ok {A} a.
Arguments Raise {A} e.
Arguments Diverge {A}.

#[global] Instance res_ret : MRet res := fun _ a => Ok a.

#[global] Instance res_bind : MBind res := fun _ _ k r =>
  match r with
  | Ok a => k a
  | Raise e => Raise e
  | Diverge => Diverge
  end.

Definition returns {A : Type} (r : res A) : Prop := exists a, r = Ok a.

(** ** Python primitives *)

Module ZOrder <: TotalLeBool.
Definition t := Z.
Definition leb := Z.leb.
Theorem leb_total : forall a1 a2, leb a1 a2 = true \/ leb a2 a1 = true.
Proof. intros a1 a2. unfold leb. rewrite !Z.leb_le. lia. Qed.
End ZOrder.

Module ZSort := Sort ZOrder.

Module Py.

Definition U64 : Z := 2 ^ 64.

(** [range(a, b)] as a list. *)
Definition range (a b : Z) : list Z :=
  List.map (fun i => a + Z.of_nat i) (seq 0 (Z.to_nat (b - a))).

(** [struct.pack('>Q', v)]: the value itself when it fits in 64 bits,
    [struct.error] otherwise. *)
Definition pack_Q (v : Z) : res Z :=
  if (0 <=? v) && (v <? U64) then Ok v else Raise StructError.

(** The integer [z] as a finite binary64 float, rounded to nearest even
    ([float(z)], the conversion of an [int] operand in mixed arithmetic). *)
Definition float_of_Z (z : Z) : float :=
  SF2Prim (binary_normalize prec emax z 0 false).

Definition Z2SF (z : Z) : spec_float :=
  match z with
  | Z0 => S754_zero false
  | Zpos p => S754_finite false p 0
  | Zneg p => S754_finite true p 0
  end.

(** [a / b] on integers: the correctly rounded quotient. The source
    divides by a bin count of at least 2 and by a range size that the
    constructor has checked, never by 0. *)
Definition truediv (a b : Z) : float :=
  SF2Prim (SFdiv prec emax (Z2SF a) (Z2SF b)).

(** [round(x)] on a float: nearest integer, ties to even. *)
Definition round (x : float) : Z :=
  match Prim2SF x with
  | S754_finite s m e =>
      let mag :=
        if 0 <=? e then Z.shiftl (Zpos m) e
        else
          let d := Z.shiftl 1 (- e) in
          let q := Zpos m / d in
          let r := Zpos m mod d in
          match 2 * r ?= d with
          | Lt => q
          | Gt => q + 1
          | Eq => if Z.even q then q else q + 1
          end in
      if s then - mag else mag
  | _ => 0
  end.

(** [math.ceil(x)] on a float. *)
Definition ceil (x : float) : Z :=
  match Prim2SF x with
  | S754_finite s m e =>
      if 0 <=? e then
        (if s then - Z.shiftl (Zpos m) e else Z.shiftl (Zpos m) e)
      else
        let d := Z.shiftl 1 (- e) in
        if s then - (Zpos m / d) else (Zpos m + d - 1) / d
  | _ => 0
  end.

(** A list index: [l[k]] counts from the end for a negative [k] and
    raises [IndexError] out of range. *)
Definition index (len k : Z) : res nat :=
  if (0 <=? k) && (k <? len) then Ok (Z.to_nat k)
  else if (- len <=? k) && (k <? 0) then Ok (Z.to_nat (len + k))
  else Raise IndexError.

Definition getitem (l : list Z) (k : Z) : res Z :=
  i ← index (Z.of_nat (length l)) k;
  match l !! i with
  | Some v => Ok v
  | None => Raise IndexError
  end.

Definition setitem (l : list Z) (k v : Z) : res (list Z) :=
  i ← index (Z.of_nat (length l)) k;
  Ok (<[i := v]> l).

(** [Cipher(algorithms.AES(key), modes.ECB())]: the key sizes that the
    package accepts in this mode are 128, 192 and 256 bits. *)
Definition AES_ECB (key : list byte) : res (list byte) :=
  let len := Z.of_nat (length key) in
  if (len =? 16) || (len =? 24) || (len =? 32) then Ok key
  else Raise ValueError.

(** [min(a, b)] and [max(a, b)] on floats: the first argument unless the
    second is strictly smaller (larger). *)
Definition fmin (a b : float) : float := if (b <? a)%float then b else a.
Definition fmax (a b : float) : float := if (a <? b)%float then b else a.

End Py.

(** ** iprf.py, module level *)

(** [inv_normal_cdf(p)] *)
Definition inv_normal_cdf (p : float) : float :=
  if (p <=? 0)%float then (-10.0)%float
  else if (1 <=? p)%float then 10.0%float
  else
    let a0 := 2.50662823884%float in
    let a1 := (-18.61500062529)%float in
    let a2 := 41.39119773534%float in
    let a3 := (-25.44106049637)%float in
    let b0 := (-8.47351093090)%float in
    let b1 := 23.08336743743%float in
    let b2 := (-21.06224101826)%float in
    let b3 := 3.13082909833%float in
    let y := (p - 0.5)%float in
    if (abs y <? 0.42)%float then
      let r := (y * y)%float in
      (y * (((a3 * r + a2) * r + a1) * r + a0)
         / ((((b3 * r + b2) * r + b1) * r + b0) * r + 1))%float
    else if (0 <? y)%float then 2.0%float else (-2.0)%float.

Section Hash.

(** SHA-256 of a message given by its length in bytes and its content;
    the digest as a 256-bit integer. *)
Variable sha256 : N -> Z -> Z.

Definition digest (len : N) (msg : Z) : Z := sha256 len msg mod 2 ^ 256.

(** [encode_node(low, high, n)] *)
Definition encode_node (low high n : Z) : res Z :=
  l ← Py.pack_Q low;
  h ← Py.pack_Q high;
  c ← Py.pack_Q n;
  let buf := Z.lor (Z.shiftl l 128) (Z.lor (Z.shiftl h 64) c) in
  Ok (Z.shiftr (digest 24 buf) 192).

End Hash.

(** ** iprf.py, class IPRF *)

Module IPRF.

Record t : Type := {
  key : list byte;
  domain : Z;
  range_size : Z;
  tree_depth : Z
}.

Section Methods.

(** AES-128 on one block (ECB), the libm power and base-2 logarithm,
    and SHA-256. *)
Variable aes128_ecb : list byte -> Z -> Z.
Variable sha256 : N -> Z -> Z.
Variable math_pow : float -> float -> float.
Variable math_log2 : Z -> float.

Definition encrypt (k : list byte) (block : Z) : Z :=
  aes128_ecb k block mod 2 ^ 128.

(** [IPRF.__init__] *)
Definition __init__ (key : list byte) (domain range_size : Z) : res t :=
  if negb (Z.of_nat (length key) =? 16) then Raise ValueError
  else if (domain =? 0) || (range_size =? 0) then Raise ValueError
  else
    key ← Py.AES_ECB key;
    Ok {| key := key;
          domain := domain;
          range_size := range_size;
          tree_depth :=
            if 1 <? range_size then Py.ceil (math_log2 range_size) else 0 |}.

(** [IPRF._prf_eval] *)
Definition _prf_eval (self : t) (x : Z) : Z :=
  let input_block := Z.land x 0xFFFFFFFFFFFFFFFF in
  let output_block := encrypt (key self) input_block in
  Z.shiftr output_block 64.

(** [IPRF._normal_approx_binomial] *)
Definition _normal_approx_binomial (n : Z) (p u : float) : Z :=
  let mean := (Py.float_of_Z n * p)%float in
  let variance := (Py.float_of_Z n * p * (1 - p))%float in
  let stddev := sqrt variance in
  let u_clamped := Py.fmax 0.001 (Py.fmin 0.999 u) in
  let z := inv_normal_cdf u_clamped in
  let result := (mean + z * stddev)%float in
  Z.max 0 (Z.min n (Py.round result)).

(** The [for k in range(n)] loop of [_binomial_inverse_cdf]; [todo] is
    the number of iterations left, and running out of them is the
    loop's normal exit. *)
Fixpoint exact_cdf_loop (todo : nat) (n k : Z) (p q u prob cum_prob : float) : Z :=
  match todo with
  | O => n
  | S todo' =>
      let prob := (prob * Py.float_of_Z (n - k) / Py.float_of_Z (k + 1) * p / q)%float in
      let cum_prob := (cum_prob + prob)%float in
      if (u <=? cum_prob)%float then k + 1
      else exact_cdf_loop todo' n (k + 1) p q u prob cum_prob
  end.

(** [IPRF._binomial_inverse_cdf] *)
Definition _binomial_inverse_cdf (n : Z) (p u : float) : Z :=
  if (u <=? 0)%float then 0
  else if (1 <=? u)%float then n
  else if (p =? 0)%float then 0
  else if (p =? 1)%float then n
  else if n =? 0 then 0
  else if 100 <? n then _normal_approx_binomial n p u
  else
    let cum_prob := 0%float in
    let q := (1 - p)%float in
    let prob := math_pow q (Py.float_of_Z n) in
    let cum_prob := (cum_prob + prob)%float in
    if (u <=? cum_prob)%float then 0
    else exact_cdf_loop (Z.to_nat n) n 0 p q u prob cum_prob.

(** The return statement of [_binomial_inverse_cdf] that a call
    reaches. *)
Inductive cdf_path : Set := EdgeCase | NormalApprox | ExactCDF.

Definition _binomial_inverse_cdf_path (n : Z) (p u : float) : cdf_path :=
  if (u <=? 0)%float then EdgeCase
  else if (1 <=? u)%float then EdgeCase
  else if (p =? 0)%float then EdgeCase
  else if (p =? 1)%float then EdgeCase
  else if n =? 0 then EdgeCase
  else if 100 <? n then NormalApprox
  else ExactCDF.

Definition INV_TWO_TO_53 : float := (1 / Py.float_of_Z (Z.shiftl 1 53))%float.

(** The uniform value that [_sample_binomial] derives from a PRF output. *)
Definition uniform (prf_output : Z) : float :=
  ((Py.float_of_Z (Z.shiftr prf_output 11) + 0.5) * INV_TWO_TO_53)%float.

(** [IPRF._sample_binomial] *)
Definition _sample_binomial (self : t) (node_id n : Z) (p : float) : Z :=
  let prf_output := _prf_eval self node_id in
  _binomial_inverse_cdf n p (uniform prf_output).

(** The [while low < high] loop of [_trace_ball]. The interval
    [low..high] is halved at every turn, so [fuel] bounds the number of
    turns by the bit length of its width. *)
Fixpoint trace_loop (self : t) (fuel : nat) (n low high ball_count ball_index : Z)
  : res Z :=
  if low <? high then
    match fuel with
    | O => Diverge
    | S fuel' =>
        let mid := (low + high) / 2 in
        let left_bins := mid - low + 1 in
        let total_bins := high - low + 1 in
        let p := Py.truediv left_bins total_bins in
        node_id ← encode_node sha256 low high n;
        let left_count := _sample_binomial self node_id ball_count p in
        if ball_index <? left_count then
          trace_loop self fuel' n low mid left_count ball_index
        else
          trace_loop self fuel' n (mid + 1) high
            (ball_count - left_count) (ball_index - left_count)
    end
  else Ok low.

Definition depth_fuel (m : Z) : nat := S (Z.to_nat (Z.log2_up m)).

(** [IPRF._trace_ball] *)
Definition _trace_ball (self : t) (x_prime n m : Z) : res Z :=
  if m =? 1 then Ok 0
  else trace_loop self (depth_fuel m) n 0 (m - 1) n x_prime.

(** [IPRF.forward] *)
Definition forward (self : t) (x : Z) : res Z :=
  if domain self <=? x then Ok 0
  else _trace_ball self x (domain self) (range_size self).

(** [IPRF._enumerate_recursive]; the accumulator [result] that the
    source extends in place is threaded through. *)
Fixpoint _enumerate_recursive (self : t) (fuel : nat)
    (target_bin low high original_n ball_count start_idx end_idx : Z)
    (result : list Z) : res (list Z) :=
  if (high <? low) || (end_idx <? start_idx) || (ball_count =? 0) then Ok result
  else if low =? high then
    if low =? target_bin then Ok (result ++ Py.range start_idx (end_idx + 1))
    else Ok result
  else
    match fuel with
    | O => Diverge
    | S fuel' =>
        let mid := (low + high) / 2 in
        let left_bins := mid - low + 1 in
        let total_bins := high - low + 1 in
        let p := Py.truediv left_bins total_bins in
        node_id ← encode_node sha256 low high original_n;
        let left_count := _sample_binomial self node_id ball_count p in
        let right_count := ball_count - left_count in
        let split_idx := start_idx + left_count in
        if target_bin <=? mid then
          if (0 <? left_count) && (start_idx <? split_idx) then
            _enumerate_recursive self fuel' target_bin low mid
              original_n left_count start_idx (split_idx - 1) result
          else Ok result
        else
          if (0 <? right_count) && (split_idx <=? end_idx) then
            _enumerate_recursive self fuel' target_bin (mid + 1) high
              original_n right_count split_idx end_idx result
          else Ok result
    end.

(** [sorted(...)] on integers. *)
Definition sorted (l : list Z) : list Z := ZSort.sort l.

(** [IPRF._enumerate_balls_in_bin] *)
Definition _enumerate_balls_in_bin (self : t) (target_bin n m : Z) : res (list Z) :=
  if m =? 1 then Ok (Py.range 0 n)
  else
    result ← _enumerate_recursive self (depth_fuel m)
               target_bin 0 (m - 1) n n 0 (n - 1) [];
    Ok (sorted result).

(** [IPRF.inverse] *)
Definition inverse (self : t) (y : Z) : res (list Z) :=
  if range_size self <=? y then Ok []
  else _enumerate_balls_in_bin self y (domain self) (range_size self).

(** [IPRF.get_expected_preimage_size] *)
Definition get_expected_preimage_size (self : t) : Z :=
  Py.ceil (Py.truediv (domain self) (range_size self)).

End Methods.

End IPRF.

(** ** table_prp.py, class DeterministicRNG *)

Module DeterministicRNG.

Record t : Type := {
  key : list byte;
  counter : Z
}.

Section Methods.

Variable aes128_ecb : list byte -> Z -> Z.

Definition encrypt (k : list byte) (block : Z) : Z :=
  aes128_ecb k block mod 2 ^ 128.

(** The key that [__init__] keeps: padded with zero bytes when shorter
    than 16 bytes, then cut to 16 bytes. *)
Definition normalize (key : list byte) : list byte :=
  let key :=
    if (length key <? 16)%nat then key ++ repeat x00 (16 - length key)%nat
    else key in
  firstn 16 key.

(** [DeterministicRNG.__init__] *)
Definition __init__ (key : list byte) : res t :=
  key ← Py.AES_ECB (normalize key);
  Ok {| key := key; counter := 0 |}.

(** [DeterministicRNG.uint64]: the value drawn and the generator after
    the call. *)
Definition uint64 (self : t) : res (Z * t) :=
  hi ← Py.pack_Q (counter self);
  lo ← Py.pack_Q (Z.shiftr (counter self) 32);
  let input_block := Z.lor (Z.shiftl hi 64) lo in
  let output_block := encrypt (key self) input_block in
  let self' := {| key := key self; counter := counter self + 1 |} in
  Ok (Z.shiftr output_block 64, self').

(** One turn of the [while True] loop of [uint64_n]: a returned value
    (or an exception) on the left, the generator to go on with on the
    right. *)
Definition reject_body (threshold n : Z) (self : t) : res (Z * t) + t :=
  match uint64 self with
  | Ok (r, self') =>
      if r <? threshold then inl (Ok (r mod n, self')) else inr self'
  | Raise e => inl (Raise e)
  | Diverge => inl Diverge
  end.

(** At most [fuel] turns of the loop, [fuel] in binary. *)
Fixpoint reject_loop (fuel : positive) (threshold n : Z) (self : t)
  : res (Z * t) + t :=
  match fuel with
  | xH => reject_body threshold n self
  | xO fuel' =>
      match reject_loop fuel' threshold n self with
      | inr self' => reject_loop fuel' threshold n self'
      | inl r => inl r
      end
  | xI fuel' =>
      match reject_body threshold n self with
      | inr self' =>
          match reject_loop fuel' threshold n self' with
          | inr self'' => reject_loop fuel' threshold n self''
          | inl r => inl r
          end
      | inl r => inl r
      end
  end.

(** [DeterministicRNG.uint64_n]. The loop draws once per turn and a
    draw needs a counter below [2^64], so [2^64 + 1] turns are never
    all taken. *)
Definition uint64_n (self : t) (n : Z) : res (Z * t) :=
  if n =? 0 then Ok (0, self)
  else if n =? 1 then Ok (0, self)
  else if Z.land n (n - 1) =? 0 then
    '(r, self') ← uint64 self;
    Ok (Z.land r (n - 1), self')
  else
    let max_val := Z.shiftl 1 64 - 1 in
    let threshold := max_val - max_val mod n in
    match reject_loop (Z.to_pos (Py.U64 + 1)) threshold n self with
    | inl r => r
    | inr _ => Diverge
    end.

End Methods.

End DeterministicRNG.

(** ** table_prp.py, class TablePRP *)

Module TablePRP.

Record t : Type := {
  domain : Z;
  key : list byte;
  forward_table : gmap Z Z;
  inverse_table : gmap Z Z
}.

Section Methods.

Variable aes128_ecb : list byte -> Z -> Z.

(** [perm[i], perm[j] = perm[j], perm[i]] *)
Definition swap (perm : list Z) (i j : Z) : res (list Z) :=
  vj ← Py.getitem perm j;
  vi ← Py.getitem perm i;
  perm ← Py.setitem perm i vj;
  Py.setitem perm j vi.

(** The Fisher-Yates loop [for i in range(domain - 1, 0, -1)], with
    [todo] turns left, the next one at index [i]. *)
Fixpoint shuffle (todo : nat) (i : Z) (perm : list Z) (rng : DeterministicRNG.t)
  : res (list Z * DeterministicRNG.t) :=
  match todo with
  | O => Ok (perm, rng)
  | S todo' =>
      '(j, rng) ← DeterministicRNG.uint64_n aes128_ecb rng (i + 1);
      perm ← swap perm i j;
      shuffle todo' (i - 1) perm rng
  end.

(** The loop [for x in range(domain)] that fills both tables. *)
Fixpoint fill (xs : list Z) (perm : list Z) (fwd inv : gmap Z Z)
  : res (gmap Z Z * gmap Z Z) :=
  match xs with
  | [] => Ok (fwd, inv)
  | x :: xs' =>
      y ← Py.getitem perm x;
      fill xs' perm (<[x := y]> fwd) (<[y := x]> inv)
  end.

(** [TablePRP._generate_permutation], on the empty tables that
    [__init__] has just created. *)
Definition _generate_permutation (domain : Z) (key : list byte)
  : res (gmap Z Z * gmap Z Z) :=
  let perm := Py.range 0 domain in
  rng ← DeterministicRNG.__init__ key;
  '(perm, _) ← shuffle (Z.to_nat (domain - 1)) (domain - 1) perm rng;
  fill (Py.range 0 domain) perm ∅ ∅.

(** [TablePRP.__init__] *)
Definition __init__ (domain : Z) (key : list byte) : res t :=
  if domain =? 0 then Raise ValueError
  else if negb (Z.of_nat (length key) =? 16) then Raise ValueError
  else
    '(fwd, inv) ← _generate_permutation domain key;
    Ok {| domain := domain; key := key;
          forward_table := fwd; inverse_table := inv |}.

Definition lookup_table (m : gmap Z Z) (k : Z) : res Z :=
  match m !! k with
  | Some v => Ok v
  | None => Raise KeyError
  end.

(** [TablePRP.forward] *)
Definition forward (self : t) (x : Z) : res Z :=
  if (domain self <=? x) || (x <? 0) then Raise ValueError
  else lookup_table (forward_table self) x.

(** [TablePRP.inverse] *)
Definition inverse (self : t) (y : Z) : res Z :=
  if (domain self <=? y) || (y <? 0) then Raise ValueError
  else lookup_table (inverse_table self) y.

(** The round-trip loop of [verify_bijection]. *)
Fixpoint round_trips (self : t) (xs : list Z) : res bool :=
  match xs with
  | [] => Ok true
  | x :: xs' =>
      y ← lookup_table (forward_table self) x;
      x_recovered ← lookup_table (inverse_table self) y;
      if negb (x =? x_recovered) then Ok false
      else round_trips self xs'
  end.

(** [TablePRP.verify_bijection] *)
Definition verify_bijection (self : t) : res bool :=
  if negb (Z.of_nat (size (forward_table self)) =? domain self) then Ok false
  else if negb (Z.of_nat (size (inverse_table self)) =? domain self) then Ok false
  else round_trips self (Py.range 0 (domain self)).

End Methods.

End TablePRP.

(** ** Byte strings and text

    Where the bytes themselves matter (a message of any length that is
    hashed, a key that is returned, a record that is written) a byte
    string is a [list byte].  A [str] is the list of its code points. *)

Module PyBytes.

Definition value (b : byte) : Z := Z.of_N (Byte.to_N b).

(** The byte of value [z mod 256]. *)
Definition byte_of (z : Z) : byte :=
  default x00 (Byte.of_N (Z.to_N (z mod 256))).

(** [int.from_bytes(buf, 'big', signed=False)] *)
Definition from_bytes (buf : list byte) : Z :=
  fold_left (fun acc b => acc * 256 + value b) buf 0.

(** The [k] low bytes of [z], most significant first: [z.to_bytes(k,
    'big')] for [0 <= z < 256^k]. *)
Fixpoint to_bytes (k : nat) (z : Z) : list byte :=
  match k with
  | O => []
  | S k' => to_bytes k' (z / 256) ++ [byte_of z]
  end.

Definition surrogate (c : Z) : bool := (0xD800 <=? c) && (c <=? 0xDFFF).

(** UTF-8 of one code point; a surrogate cannot be encoded
    ([UnicodeEncodeError], a subclass of [ValueError]). *)
Definition encode_char (c : Z) : res (list byte) :=
  let cont (k : Z) := byte_of (Z.lor 0x80 (Z.land (Z.shiftr c k) 0x3F)) in
  if c <? 0x80 then Ok [byte_of c]
  else if c <? 0x800 then Ok [byte_of (Z.lor 0xC0 (Z.shiftr c 6)); cont 0]
  else if c <? 0x10000 then
    if surrogate c then Raise ValueError
    else Ok [byte_of (Z.lor 0xE0 (Z.shiftr c 12)); cont 6; cont 0]
  else Ok [byte_of (Z.lor 0xF0 (Z.shiftr c 18)); cont 12; cont 6; cont 0].

(** [s.encode('utf-8')] *)
Fixpoint encode_utf8 (s : list Z) : res (list byte) :=
  match s with
  | [] => Ok []
  | c :: s' =>
      b ← encode_char c;
      r ← encode_utf8 s';
      Ok (b ++ r)
  end.

(** [struct.pack('<Q', v)] and [struct.pack('<I', v)]: the bytes, least
    significant first. *)
Definition pack_le (k : nat) (v : Z) : res (list byte) :=
  if (0 <=? v) && (v <? 256 ^ Z.of_nat k) then Ok (rev (to_bytes k v))
  else Raise StructError.

End PyBytes.

(** ** iprf.py, [derive_iprf_key] *)

(** The domain separator [b"iprf-key-derivation-v1"]. *)
Definition KEY_DERIVATION_LABEL : list byte :=
  [x69; x70; x72; x66; x2d; x6b; x65; x79; x2d; x64; x65; x72; x69; x76;
   x61; x74; x69; x6f; x6e; x2d; x76; x31].

Section KeyDerivation.

Variable sha256 : N -> Z -> Z.

(** [hashlib.sha256()] fed with [update] calls hashes the concatenation
    of what it was fed. *)
Definition sha256_bytes (msg : list byte) : Z :=
  digest sha256 (N.of_nat (length msg)) (PyBytes.from_bytes msg).

(** [derive_iprf_key(master_secret, context)] *)
Definition derive_iprf_key (master_secret : list byte) (context : list Z)
  : res (list byte) :=
  ctx ← PyBytes.encode_utf8 context;
  let h := master_secret ++ KEY_DERIVATION_LABEL ++ ctx in
  Ok (PyBytes.to_bytes 16 (Z.shiftr (sha256_bytes h) 128)).

End KeyDerivation.

(** ** scripts/build_database_from_parquet.py *)

Module BuildDatabase.

(** [clamp_uint64(value)] *)
Definition clamp_uint64 (value : Z) : Z := Z.min value (Z.shiftl 1 64 - 1).

(** The balance that [main] keeps for a row whose [balance_after] is
    [bal_bytes]. *)
Definition balance_of (bal_bytes : list byte) : Z :=
  clamp_uint64 (PyBytes.from_bytes bal_bytes).

(** The last loop of [main], over the sorted items from position
    [index] on: what has been written to [database.bin] and to
    [address-mapping.bin] when it ends.  Addresses are byte strings, as
    a file opened in binary mode requires. *)
Fixpoint write_entries (index : Z) (items : list (list byte * Z))
    (db map : list byte) : res (list byte * list byte) :=
  match items with
  | [] => Ok (db, map)
  | (addr, balance) :: rest =>
      q ← PyBytes.pack_le 8 balance;
      i ← PyBytes.pack_le 4 index;
      write_entries (index + 1) rest (db ++ q) (map ++ addr ++ i)
  end.

End BuildDatabase.

(** ** A concrete instance of the external functions

    Small stand-ins for the cipher, the hash and libm, on which the
    definitions above can be run. *)

Module Toy.

Definition aes128_ecb (k : list byte) (block : Z) : Z :=
  (block + Z.of_nat (length k) + 1) * 0x9E3779B97F4A7C15F39CC0605CEDC835.

Definition sha256 (len : N) (msg : Z) : Z :=
  (msg + Z.of_N len) * 0xC2B2AE3D27D4EB4F165667B19E3779F9BF58476D1CE4E5B994D049BB133111EB.

Fixpoint pow_nat (x : float) (k : nat) : float :=
  match k with
  | O => 1%float
  | S k' => (x * pow_nat x k')%float
  end.

Definition math_pow (x y : float) : float := pow_nat x (Z.to_nat (Py.round y)).

Definition math_log2 (z : Z) : float := Py.float_of_Z (Z.log2_up z).

Definition key16 : list byte := repeat x2a 16.

(** The instance that [IPRF(key16, n, m)] builds. *)
Definition iprf (n m : Z) : IPRF.t :=
  {| IPRF.key := key16;
     IPRF.domain := n;
     IPRF.range_size := m;
     IPRF.tree_depth := if 1 <? m then Py.ceil (math_log2 m) else 0 |}.

(** The instance that [TablePRP(n, key16)] builds. *)
Definition prp (n : Z) : TablePRP.t :=
  match TablePRP.__init__ aes128_ecb n key16 with
  | Ok t => t
  | _ => {| TablePRP.domain := n; TablePRP.key := key16;
            TablePRP.forward_table := ∅; TablePRP.inverse_table := ∅ |}
  end.

(** A generator in the middle of its stream. *)
Definition rng (c : Z) : DeterministicRNG.t :=
  {| DeterministicRNG.key := key16; DeterministicRNG.counter := c |}.

(** A cipher whose every block is all ones. *)
Definition all_ones (k : list byte) (block : Z) : Z := 2 ^ 128 - 1.

End Toy.

(** * Vocabulary of the properties *)

(** What a tree walk of the iPRF over the bins [..high] can end in: a
    value with the property [P], or [struct.error] when the domain size
    [n] or the bin [high] does not fit the 64-bit node encoding. *)
Definition walk_post {A : Type} (n high : Z) (P : A -> Prop) (r : res A) : Prop :=
  match r with
  | Ok a => P a
  | Raise e => e = StructError /\ ~ (0 <= n < Py.U64 /\ high < Py.U64)
  | Diverge => False
  end.

Section WalkVocabulary.

Variable aes128_ecb : list byte -> Z -> Z.
Variable sha256 : N -> Z -> Z.
Variable math_pow : float -> float -> float.
Variable self : IPRF.t.

(** The split that both walks take at the node [low..high] when
    [ball_count] balls reach it. *)
Definition split_at (low high ball_count node_id : Z) : Z :=
  let mid := (low + high) / 2 in
  IPRF._sample_binomial aes128_ecb math_pow self node_id ball_count
    (Py.truediv (mid - low + 1) (high - low + 1)).

(** The balls that the inverse walk adds to its accumulator are a run
    [a..b-1] of the balls [start..start+bc-1] that reached the node, and
    they are the balls that the forward walk takes from this node to
    [target]. *)
Definition collects (fuel : nat) (target n low high bc start : Z) (acc l : list Z)
  : Prop :=
  exists a b,
    l = acc ++ Py.range a b /\ start <= a /\ b <= start + bc /\
    forall x, start <= x < start + bc ->
      (a <= x < b <->
       IPRF.trace_loop aes128_ecb sha256 math_pow self fuel n low high bc (x - start)
         = Ok target).

End WalkVocabulary.

(** The block that [uint64] encrypts at counter [c]: [c] in the first
    8 bytes, [c >> 32] in the last 8 bytes. *)
Definition counter_block (c : Z) : Z := Z.lor (Z.shiftl c 64) (Z.shiftr c 32).

(** The word that [uint64] returns at counter [c]: the first 8 bytes of
    the encrypted block. *)
Definition word_at (aes128_ecb : list byte -> Z -> Z) (key : list byte) (c : Z) : Z :=
  Z.shiftr (DeterministicRNG.encrypt aes128_ecb key (counter_block c)) 64.

Definition advance (self : DeterministicRNG.t) : DeterministicRNG.t :=
  {| DeterministicRNG.key := DeterministicRNG.key self;
     DeterministicRNG.counter := DeterministicRNG.counter self + 1 |}.

(** What a draw in [0, n) can end in, starting from [self]. *)
Definition draw_post (self : DeterministicRNG.t) (n : Z)
    (r : res (Z * DeterministicRNG.t)) : Prop :=
  match r with
  | Ok (v, self') =>
      0 <= v < n /\
      DeterministicRNG.key self' = DeterministicRNG.key self /\
      DeterministicRNG.counter self < DeterministicRNG.counter self' <= Py.U64
  | Raise e => e = StructError
  | Diverge => False
  end.

(** The tables read at the keys [0 .. n-1], in order. *)
Definition table_row (m : gmap Z Z) (n : Z) : list (option Z) :=
  List.map (fun x => m !! x) (Py.range 0 n).

(** The tables after the first [k] turns of the filling loop over the
    shuffled list [perm]. *)
Definition filled (perm : list Z) (k : Z) (fwd inv : gmap Z Z) : Prop :=
  (forall x, fwd !! x = if decide (0 <= x < k) then perm !! Z.to_nat x else None) /\
  (forall y x, inv !! y = Some x <-> 0 <= x < k /\ perm !! Z.to_nat x = Some y) /\
  Z.of_nat (size fwd) = k /\ Z.of_nat (size inv) = k.

(** The first [k] words of a generator. *)
Fixpoint draws (aes128_ecb : list byte -> Z -> Z) (k : nat) (rng : DeterministicRNG.t)
  : res (list Z) :=
  match k with
  | O => Ok []
  | S k' =>
      '(w, rng) ← DeterministicRNG.uint64 aes128_ecb rng;
      ws ← draws aes128_ecb k' rng;
      Ok (w :: ws)
  end.

(** The specification's value of the expected preimage size (section
    4.D.5): the ceiling of [n / m] in exact integer arithmetic. *)
Definition exact_ceil_div (n m : Z) : Z := - ((- n) / m).

(** The specification's [clamp(x, lo, hi)] (section 4.D.3). *)
Definition clamp (x lo hi : float) : float := Py.fmax lo (Py.fmin hi x).

(** The specification's value of the normal-approximation path (section
    4.D.3),
    [clamp(round(n p + inv_normal_cdf(clamp(u, 0.001, 0.999)) sqrt(n p (1 - p))), 0, n)]. *)
Definition spec_normal_sample (n : Z) (p u : float) : Z :=
  let mu := (Py.float_of_Z n * p)%float in
  let sigma := sqrt (Py.float_of_Z n * p * (1 - p))%float in
  let z := inv_normal_cdf (clamp u 0.001 0.999) in
  Z.max 0 (Z.min n (Py.round (mu + z * sigma)%float)).

(** The rejection threshold of [uint64_n] for the bound [n]. *)
Definition rejection_threshold (n : Z) : Z :=
  let max_val := Z.shiftl 1 64 - 1 in
  max_val - max_val mod n.

(** From counter [c] on, the first word below [threshold] is the one at
    counter [c']: every word before it is rejected. *)
Definition accepted_at (aes128_ecb : list byte -> Z -> Z) (key : list byte)
    (threshold c c' : Z) : Prop :=
  c <= c' < Py.U64 /\
  word_at aes128_ecb key c' < threshold /\
  forall j, c <= j < c' -> threshold <= word_at aes128_ecb key j.

(** What a draw by rejection can end in, from counter [c] on: the value
    comes from the first accepted word, or every word up to the end of the
    64-bit counter is rejected and packing the counter raises. *)
Definition draw_trace (aes128_ecb : list byte -> Z -> Z) (key : list byte)
    (threshold n c : Z) (r : res (Z * DeterministicRNG.t)) : Prop :=
  match r with
  | Ok (v, self') =>
      exists c',
        accepted_at aes128_ecb key threshold c c' /\
        v = word_at aes128_ecb key c' mod n /\
        self' = {| DeterministicRNG.key := key; DeterministicRNG.counter := c' + 1 |}
  | Raise e =>
      e = StructError /\
      forall j, c <= j < Py.U64 -> threshold <= word_at aes128_ecb key j
  | Diverge => False
  end.

(** The list that [inverse(y)] returns, empty when it raises. *)
Definition preimages (aes128_ecb : list byte -> Z -> Z) (sha256 : N -> Z -> Z)
    (math_pow : float -> float -> float) (self : IPRF.t) (y : Z) : list Z :=
  match IPRF.inverse aes128_ecb sha256 math_pow self y with
  | Ok l => l
  | _ => []
  end.

(** The 24 bytes that [encode_node] hashes: three big-endian 64-bit
    fields. *)
Definition node_buffer (low high n : Z) : Z :=
  Z.lor (Z.shiftl low 128) (Z.lor (Z.shiftl high 64) n).

(** * Properties *)

Ltac zdiv := Z.div_mod_to_equations; lia.

(** ** Results *)

Lemma returns_Ok {A : Type} (a : A) : returns (Ok a).
Proof. exists a. reflexivity. Qed.

#[local] Hint Resolve returns_Ok : core.

(** ** Ranges *)

Lemma range_In (a b x : Z) : In x (Py.range a b) <-> a <= x < b.
Proof.
  unfold Py.range. rewrite in_map_iff. split.
  - intros (i & <- & Hi). apply in_seq in Hi. lia.
  - intros H. exists (Z.to_nat (x - a)). split; [lia|]. apply in_seq. lia.
Qed.

Lemma range_length (a b : Z) : length (Py.range a b) = Z.to_nat (b - a).
Proof. unfold Py.range. now rewrite length_map, length_seq. Qed.

Lemma range_empty (a b : Z) : b <= a -> Py.range a b = [].
Proof.
  intros H. unfold Py.range. replace (Z.to_nat (b - a)) with 0%nat by lia.
  reflexivity.
Qed.

Lemma seq_map_lt (a : Z) (s k : nat) :
  StronglySorted Z.lt (List.map (fun i => a + Z.of_nat i) (seq s k)).
Proof.
  revert s. induction k as [|k IH]; intros s; simpl; constructor.
  - apply IH.
  - apply List.Forall_forall. intros x Hx. apply in_map_iff in Hx.
    destruct Hx as (i & <- & Hi). apply in_seq in Hi. lia.
Qed.

Lemma range_sorted (a b : Z) : StronglySorted Z.lt (Py.range a b).
Proof. apply seq_map_lt. Qed.

Lemma StronglySorted_lt_NoDup (l : list Z) : StronglySorted Z.lt l -> NoDup l.
Proof.
  induction 1 as [|x l _ IH Hx]; constructor; [|exact IH].
  intros Hin. apply list_elem_of_In in Hin.
  rewrite List.Forall_forall in Hx. specialize (Hx x Hin). lia.
Qed.

Lemma range_lookup (a b : Z) (i : nat) :
  (i < Z.to_nat (b - a))%nat -> Py.range a b !! i = Some (a + Z.of_nat i).
Proof.
  intros H. unfold Py.range. rewrite list_lookup_fmap.
  rewrite lookup_seq_lt by exact H. reflexivity.
Qed.

(** ** The 64-bit packing *)

Lemma pack_Q_Ok (v : Z) : 0 <= v < Py.U64 -> Py.pack_Q v = Ok v.
Proof.
  intros H. unfold Py.pack_Q.
  destruct (Z.leb_spec 0 v), (Z.ltb_spec v Py.U64); simpl; try lia. reflexivity.
Qed.

Lemma pack_Q_Raise (v : Z) : ~ 0 <= v < Py.U64 -> Py.pack_Q v = Raise StructError.
Proof.
  intros H. unfold Py.pack_Q.
  destruct (Z.leb_spec 0 v), (Z.ltb_spec v Py.U64); simpl; try lia; reflexivity.
Qed.

Lemma pack_Q_cases (v : Z) :
  (0 <= v < Py.U64 /\ Py.pack_Q v = Ok v) \/
  (~ 0 <= v < Py.U64 /\ Py.pack_Q v = Raise StructError).
Proof.
  destruct (Z_le_dec 0 v), (Z_lt_dec v Py.U64);
    first [ left; split; [lia | apply pack_Q_Ok; lia]
          | right; split; [lia | apply pack_Q_Raise; lia] ].
Qed.

Section HashFacts.

Variable sha256 : N -> Z -> Z.

Lemma encode_node_cases (low high n : Z) :
  (exists id, encode_node sha256 low high n = Ok id /\
              0 <= low < Py.U64 /\ 0 <= high < Py.U64 /\ 0 <= n < Py.U64) \/
  (encode_node sha256 low high n = Raise StructError /\
   ~ (0 <= low < Py.U64 /\ 0 <= high < Py.U64 /\ 0 <= n < Py.U64)).
Proof.
  unfold encode_node.
  destruct (pack_Q_cases low) as [[Hl ->]|[Hl ->]]; [|right; split; [reflexivity|lia]].
  destruct (pack_Q_cases high) as [[Hh ->]|[Hh ->]]; [|right; split; [reflexivity|lia]].
  destruct (pack_Q_cases n) as [[Hn ->]|[Hn ->]]; [|right; split; [reflexivity|lia]].
  left. simpl. eauto.
Qed.

End HashFacts.

(** ** The binomial sampler stays within [0, n] *)

Section Sampler.

Variable aes128_ecb : list byte -> Z -> Z.
Variable math_pow : float -> float -> float.

Lemma _normal_approx_binomial_range (n : Z) (p u : float) :
  0 <= n -> 0 <= IPRF._normal_approx_binomial n p u <= n.
Proof. intros H. unfold IPRF._normal_approx_binomial. cbv zeta. lia. Qed.

Lemma exact_cdf_loop_range (todo : nat) (n k : Z) (p q u prob cum : float) :
  0 <= k -> k + Z.of_nat todo <= n ->
  0 <= IPRF.exact_cdf_loop todo n k p q u prob cum <= n.
Proof.
  revert k prob cum. induction todo as [|todo IH]; intros k prob cum Hk Hn; simpl.
  - lia.
  - destruct (_ <=? _)%float; [lia|]. apply IH; lia.
Qed.

Lemma _binomial_inverse_cdf_range (n : Z) (p u : float) :
  0 <= n -> 0 <= IPRF._binomial_inverse_cdf math_pow n p u <= n.
Proof.
  intros H. unfold IPRF._binomial_inverse_cdf. cbv zeta.
  repeat match goal with
         | |- context [if ?c then _ else _] => destruct c; [lia|]
         end.
  - destruct (100 <? n); [apply _normal_approx_binomial_range; lia|].
    destruct (_ <=? _)%float; [lia|].
    apply exact_cdf_loop_range; lia.
Qed.

Lemma _sample_binomial_range (self : IPRF.t) (node_id n : Z) (p : float) :
  0 <= n -> 0 <= IPRF._sample_binomial aes128_ecb math_pow self node_id n p <= n.
Proof.
  intros H. unfold IPRF._sample_binomial. cbv zeta.
  apply _binomial_inverse_cdf_range. exact H.
Qed.

End Sampler.

(** ** The two tree walks of the iPRF *)

Section Walks.

Variable aes128_ecb : list byte -> Z -> Z.
Variable sha256 : N -> Z -> Z.
Variable math_pow : float -> float -> float.
Variable self : IPRF.t.

Abbreviation trace_loop := (IPRF.trace_loop aes128_ecb sha256 math_pow self).
Abbreviation enumerate := (IPRF._enumerate_recursive aes128_ecb sha256 math_pow self).
Abbreviation split_at := (split_at aes128_ecb math_pow self).
Abbreviation collects := (collects aes128_ecb sha256 math_pow self).

Lemma split_at_range (low high ball_count node_id : Z) :
  0 <= ball_count -> 0 <= split_at low high ball_count node_id <= ball_count.
Proof. intros H. unfold split_at. cbv zeta. apply _sample_binomial_range. exact H. Qed.

Lemma trace_loop_leaf (fuel : nat) (n low high bc bi : Z) :
  high <= low -> trace_loop fuel n low high bc bi = Ok low.
Proof.
  intros H. destruct fuel; cbn [IPRF.trace_loop];
    destruct (Z.ltb_spec low high); try lia; reflexivity.
Qed.

Lemma trace_loop_node (fuel : nat) (n low high bc bi id : Z) :
  low < high -> encode_node sha256 low high n = Ok id ->
  trace_loop (S fuel) n low high bc bi =
    let mid := (low + high) / 2 in
    let left_count := split_at low high bc id in
    if bi <? left_count then trace_loop fuel n low mid left_count bi
    else trace_loop fuel n (mid + 1) high (bc - left_count) (bi - left_count).
Proof.
  intros Hlt Hid. cbn [IPRF.trace_loop]. destruct (Z.ltb_spec low high); [|lia].
  rewrite Hid. reflexivity.
Qed.

Lemma trace_loop_raise (fuel : nat) (n low high bc bi : Z) (e : exn) :
  low < high -> encode_node sha256 low high n = Raise e ->
  trace_loop (S fuel) n low high bc bi = Raise e.
Proof.
  intros Hlt Hid. cbn [IPRF.trace_loop]. destruct (Z.ltb_spec low high); [|lia].
  rewrite Hid. reflexivity.
Qed.

Lemma walk_post_weaken {A : Type} (n high high' : Z) (P Q : A -> Prop) (r : res A) :
  high' <= high -> (forall a, P a -> Q a) ->
  walk_post n high' P r -> walk_post n high Q r.
Proof.
  intros Hh HPQ. destruct r as [a|e|]; simpl; [auto| |auto].
  intros [-> Hn]. split; [reflexivity|]. lia.
Qed.

Lemma pow2_succ (fuel : nat) : 2 ^ Z.of_nat (S fuel) = 2 * 2 ^ Z.of_nat fuel.
Proof. rewrite Nat2Z.inj_succ. apply Z.pow_succ_r. lia. Qed.

Lemma trace_loop_outcome (fuel : nat) :
  forall n low high bc bi,
    0 <= low <= high -> high - low < 2 ^ Z.of_nat fuel ->
    walk_post n high (fun y => low <= y <= high) (trace_loop fuel n low high bc bi).
Proof.
  induction fuel as [|fuel IH]; intros n low high bc bi Hlh Hfuel.
  - rewrite trace_loop_leaf by (simpl in Hfuel; lia). simpl. lia.
  - destruct (Z_lt_dec low high) as [Hlt|Hge];
      [|rewrite trace_loop_leaf by lia; simpl; lia].
    rewrite pow2_succ in Hfuel.
    destruct (encode_node_cases sha256 low high n) as [(id & Hid & _)|[Hid Hbad]].
    + rewrite (trace_loop_node _ _ _ _ _ _ id) by assumption. cbv zeta.
      destruct (_ <? _).
      * eapply walk_post_weaken; cycle 2; [apply IH; zdiv|zdiv|].
        intros y Hy. simpl in Hy. zdiv.
      * eapply walk_post_weaken; cycle 2; [apply IH; zdiv|zdiv|].
        intros y Hy. simpl in Hy. zdiv.
    + rewrite (trace_loop_raise _ _ _ _ _ _ StructError) by assumption.
      simpl. split; [reflexivity|]. lia.
Qed.

Lemma trace_loop_range (fuel : nat) (n low high bc bi y : Z) :
  low <= high -> trace_loop fuel n low high bc bi = Ok y -> low <= y <= high.
Proof.
  revert low high bc bi. induction fuel as [|fuel IH]; intros low high bc bi Hlh.
  - destruct (Z_lt_dec low high) as [Hlt|Hge].
    + cbn [IPRF.trace_loop]. destruct (Z.ltb_spec low high); [discriminate|lia].
    + rewrite trace_loop_leaf by lia. intros [= <-]. lia.
  - destruct (Z_lt_dec low high) as [Hlt|Hge];
      [|rewrite trace_loop_leaf by lia; intros [= <-]; lia].
    destruct (encode_node_cases sha256 low high n) as [(id & Hid & _)|[Hid _]].
    + rewrite (trace_loop_node _ _ _ _ _ _ id) by assumption. cbv zeta.
      destruct (_ <? _); intros H; apply IH in H; zdiv.
    + rewrite (trace_loop_raise _ _ _ _ _ _ StructError) by assumption.
      discriminate.
Qed.

(** *** The inverse walk *)

Lemma enumerate_skip (fuel : nat) (target low high n bc start stop : Z) (acc : list Z) :
  high < low \/ stop < start \/ bc = 0 ->
  enumerate fuel target low high n bc start stop acc = Ok acc.
Proof.
  intros H.
  assert ((high <? low) || (stop <? start) || (bc =? 0) = true) as Hc.
  { destruct (Z.ltb_spec high low), (Z.ltb_spec stop start), (Z.eqb_spec bc 0);
      simpl; try reflexivity; lia. }
  destruct fuel; cbn [IPRF._enumerate_recursive]; rewrite Hc; reflexivity.
Qed.

Lemma enumerate_guard (low high bc start stop : Z) :
  low <= high -> start <= stop -> bc <> 0 ->
  (high <? low) || (stop <? start) || (bc =? 0) = false.
Proof.
  intros. destruct (Z.ltb_spec high low), (Z.ltb_spec stop start), (Z.eqb_spec bc 0);
    simpl; try reflexivity; lia.
Qed.

Lemma enumerate_leaf (fuel : nat) (target low n bc start stop : Z) (acc : list Z) :
  start <= stop -> bc <> 0 ->
  enumerate fuel target low low n bc start stop acc =
    if low =? target then Ok (acc ++ Py.range start (stop + 1)) else Ok acc.
Proof.
  intros Hs Hbc.
  destruct fuel; cbn [IPRF._enumerate_recursive];
    rewrite enumerate_guard by lia; rewrite Z.eqb_refl; reflexivity.
Qed.

Lemma enumerate_node (fuel : nat) (target low high n bc start stop id : Z)
    (acc : list Z) :
  low < high -> start <= stop -> bc <> 0 ->
  encode_node sha256 low high n = Ok id ->
  enumerate (S fuel) target low high n bc start stop acc =
    let mid := (low + high) / 2 in
    let left_count := split_at low high bc id in
    if target <=? mid then
      if (0 <? left_count) && (start <? start + left_count) then
        enumerate fuel target low mid n left_count start (start + left_count - 1) acc
      else Ok acc
    else
      if (0 <? bc - left_count) && (start + left_count <=? stop) then
        enumerate fuel target (mid + 1) high n (bc - left_count)
          (start + left_count) stop acc
      else Ok acc.
Proof.
  intros Hlt Hs Hbc Hid. cbn [IPRF._enumerate_recursive].
  rewrite enumerate_guard by lia.
  destruct (Z.eqb_spec low high); [lia|].
  rewrite Hid. reflexivity.
Qed.

Lemma enumerate_raise (fuel : nat) (target low high n bc start stop : Z)
    (acc : list Z) (e : exn) :
  low < high -> start <= stop -> bc <> 0 ->
  encode_node sha256 low high n = Raise e ->
  enumerate (S fuel) target low high n bc start stop acc = Raise e.
Proof.
  intros Hlt Hs Hbc Hid. cbn [IPRF._enumerate_recursive].
  rewrite enumerate_guard by lia.
  destruct (Z.eqb_spec low high); [lia|].
  rewrite Hid. reflexivity.
Qed.

Lemma enumerate_outcome (fuel : nat) :
  forall target n low high bc start acc,
    0 <= low -> low <= target <= high -> high - low < 2 ^ Z.of_nat fuel -> 0 <= bc ->
    walk_post n high (collects fuel target n low high bc start acc)
      (enumerate fuel target low high n bc start (start + bc - 1) acc).
Proof.
  induction fuel as [|fuel IH]; intros target n low high bc start acc Hl Ht Hfuel Hbc.
  all: destruct (Z.eq_dec bc 0) as [->|Hbc0].
  1,3: rewrite enumerate_skip by lia; simpl; exists start, start;
       rewrite range_empty, app_nil_r by lia;
       (split; [reflexivity|]); (split; [lia|]); (split; [lia|]); intros x Hxr; lia.
  all: destruct (Z.eq_dec low high) as [<-|Hne].
  1,3: rewrite enumerate_leaf by lia;
       destruct (Z.eqb_spec low target); [|lia]; simpl;
       exists start, (start + bc - 1 + 1);
       (split; [reflexivity|]); (split; [lia|]); (split; [lia|]); intros x Hxr;
       rewrite trace_loop_leaf by lia; (split; [congruence|lia]).
  - simpl in Hfuel. lia.
  - rewrite pow2_succ in Hfuel.
    destruct (encode_node_cases sha256 low high n) as [(id & Hid & _)|[Hid Hbad]];
      [|rewrite (enumerate_raise _ _ _ _ _ _ _ _ _ StructError) by (assumption || lia);
        simpl; split; [reflexivity|lia]].
    rewrite (enumerate_node _ _ _ _ _ _ _ _ id) by (assumption || lia). cbv zeta.
    pose proof (split_at_range low high bc id Hbc) as Hlc.
    set (lc := split_at low high bc id) in *.
    set (mid := (low + high) / 2).
    assert (low <= mid < high) as Hmid by (subst mid; zdiv).
    assert (mid - low < 2 ^ Z.of_nat fuel /\ high - (mid + 1) < 2 ^ Z.of_nat fuel)
      as [Hfl Hfr] by (subst mid; zdiv).
    assert (forall x, trace_loop (S fuel) n low high bc (x - start) =
              if x - start <? lc then trace_loop fuel n low mid lc (x - start)
              else trace_loop fuel n (mid + 1) high (bc - lc) (x - (start + lc)))
      as Hstep.
    { intros x. rewrite (trace_loop_node _ _ _ _ _ _ id) by (assumption || lia).
      cbv zeta. fold lc mid. replace (x - start - lc) with (x - (start + lc)) by lia.
      reflexivity. }
    destruct (Z.leb_spec target mid) as [Htm|Htm].
    + destruct (Z.ltb_spec 0 lc) as [Hpos|Hzero]; simpl.
      * destruct (Z.ltb_spec start (start + lc)); [|lia].
        eapply walk_post_weaken; cycle 2; [apply IH; lia|lia|].
        intros l (a & b & -> & Ha & Hb & Hx). exists a, b.
        split; [reflexivity|]. split; [lia|]. split; [lia|].
        intros x Hxr. rewrite Hstep.
        destruct (Z.ltb_spec (x - start) lc); [apply Hx; lia|].
        split; [lia|]. intros Hr. apply trace_loop_range in Hr; lia.
      * exists start, start. rewrite range_empty, app_nil_r by lia.
        split; [reflexivity|]. split; [lia|]. split; [lia|].
        intros x Hxr. rewrite Hstep.
        destruct (Z.ltb_spec (x - start) lc); [lia|].
        split; [lia|]. intros Hr. apply trace_loop_range in Hr; lia.
    + destruct (Z.ltb_spec 0 (bc - lc)) as [Hpos|Hzero]; simpl.
      * destruct (Z.leb_spec (start + lc) (start + bc - 1)); [|lia].
        replace (start + bc - 1) with (start + lc + (bc - lc) - 1) by lia.
        eapply walk_post_weaken; cycle 2; [apply IH; lia|lia|].
        intros l (a & b & -> & Ha & Hb & Hx). exists a, b.
        split; [reflexivity|]. split; [lia|]. split; [lia|].
        intros x Hxr. rewrite Hstep.
        destruct (Z.ltb_spec (x - start) lc); [|apply Hx; lia].
        split; [lia|]. intros Hr. apply trace_loop_range in Hr; lia.
      * exists start, start. rewrite range_empty, app_nil_r by lia.
        split; [reflexivity|]. split; [lia|]. split; [lia|].
        intros x Hxr. rewrite Hstep.
        destruct (Z.ltb_spec (x - start) lc); [|lia].
        split; [lia|]. intros Hr. apply trace_loop_range in Hr; lia.
Qed.

End Walks.

(** ** Sorting a list without repetitions *)

Lemma Sorted_le_NoDup_lt (l : list Z) :
  StronglySorted (fun x y => is_true (x <=? y)) l -> NoDup l -> StronglySorted Z.lt l.
Proof.
  induction 1 as [|x l Hs IH Hx]; intros Hnd; constructor.
  - apply IH. now apply NoDup_cons_1_2 in Hnd.
  - apply NoDup_cons_1_1 in Hnd.
    rewrite List.Forall_forall in *. intros y Hy.
    specialize (Hx y Hy). apply Z.leb_le in Hx.
    assert (x <> y) by (intros ->; apply Hnd, list_elem_of_In, Hy). lia.
Qed.

Lemma sorted_spec (l : list Z) :
  NoDup l ->
  StronglySorted Z.lt (IPRF.sorted l) /\ forall x, In x (IPRF.sorted l) <-> In x l.
Proof.
  intros Hnd. unfold IPRF.sorted.
  pose proof (ZSort.Permuted_sort l) as Hp. split.
  - apply Sorted_le_NoDup_lt.
    + apply ZSort.StronglySorted_sort.
      intros x y z Hxy Hyz. unfold ZOrder.leb, is_true in *.
      rewrite Z.leb_le in *. lia.
    + now rewrite <- Hp.
  - intros x. split; intros H.
    + eapply Permutation_in; [symmetry; exact Hp|exact H].
    + eapply Permutation_in; [exact Hp|exact H].
Qed.

(** ** The iPRF *)

Section IPRFClaims.

Variable aes128_ecb : list byte -> Z -> Z.
Variable sha256 : N -> Z -> Z.
Variable math_pow : float -> float -> float.
Variable math_log2 : Z -> float.

Abbreviation new := (IPRF.__init__ math_log2).
Abbreviation forward := (IPRF.forward aes128_ecb sha256 math_pow).
Abbreviation inverse := (IPRF.inverse aes128_ecb sha256 math_pow).

Lemma AES_ECB_16 (key : list byte) :
  Z.of_nat (length key) = 16 -> Py.AES_ECB key = Ok key.
Proof. intros H. unfold Py.AES_ECB. cbv zeta. rewrite H. reflexivity. Qed.

Lemma new_Ok (key : list byte) (n m : Z) (self : IPRF.t) :
  new key n m = Ok self ->
  Z.of_nat (length key) = 16 /\ n <> 0 /\ m <> 0 /\
  IPRF.key self = key /\ IPRF.domain self = n /\ IPRF.range_size self = m.
Proof.
  unfold IPRF.__init__.
  destruct (Z.eqb_spec (Z.of_nat (length key)) 16) as [Hk|Hk]; [|discriminate].
  destruct (Z.eqb_spec n 0); [discriminate|].
  destruct (Z.eqb_spec m 0); [discriminate|]. simpl.
  rewrite AES_ECB_16 by exact Hk. simpl. intros [= <-]. simpl.
  repeat split; assumption.
Qed.

Lemma depth_fuel_enough (m : Z) : 1 < m -> m - 1 - 0 < 2 ^ Z.of_nat (IPRF.depth_fuel m).
Proof.
  intros Hm. unfold IPRF.depth_fuel. rewrite pow2_succ.
  pose proof (Z.log2_up_nonneg m). rewrite Z2Nat.id by assumption.
  pose proof (Z.log2_up_spec m Hm). lia.
Qed.

Lemma forward_outcome (self : IPRF.t) (x : Z) :
  0 < IPRF.range_size self -> 0 <= x < IPRF.domain self ->
  walk_post (IPRF.domain self) (IPRF.range_size self - 1)
    (fun y => 0 <= y < IPRF.range_size self) (forward self x).
Proof.
  intros Hm Hx. unfold IPRF.forward.
  destruct (Z.leb_spec (IPRF.domain self) x); [lia|].
  unfold IPRF._trace_ball.
  destruct (Z.eqb_spec (IPRF.range_size self) 1) as [->|Hm1]; [simpl; lia|].
  eapply walk_post_weaken; cycle 2.
  - apply trace_loop_outcome; [lia|]. apply depth_fuel_enough. lia.
  - lia.
  - intros y Hy. simpl in Hy. lia.
Qed.

Lemma inverse_outcome (self : IPRF.t) (y : Z) :
  0 < IPRF.domain self -> 0 <= y < IPRF.range_size self ->
  walk_post (IPRF.domain self) (IPRF.range_size self - 1)
    (fun l => StronglySorted Z.lt l /\
              forall x, In x l <-> 0 <= x < IPRF.domain self /\ forward self x = Ok y)
    (inverse self y).
Proof.
  intros Hn Hy. unfold IPRF.inverse.
  destruct (Z.leb_spec (IPRF.range_size self) y); [lia|].
  unfold IPRF._enumerate_balls_in_bin.
  destruct (Z.eqb_spec (IPRF.range_size self) 1) as [Hm1|Hm1].
  - simpl. split; [apply range_sorted|]. intros x. rewrite range_In.
    unfold IPRF.forward, IPRF._trace_ball. rewrite Hm1. simpl.
    destruct (Z.leb_spec (IPRF.domain self) x); split; intros H1.
    + lia.
    + destruct H1; lia.
    + split; [lia|]. f_equal. lia.
    + lia.
  - set (n := IPRF.domain self) in *. set (m := IPRF.range_size self) in *.
    pose proof (enumerate_outcome aes128_ecb sha256 math_pow self
                  (IPRF.depth_fuel m) y n 0 (m - 1) n 0 []) as H1.
    replace (0 + n - 1) with (n - 1) in H1 by lia.
    specialize (H1 ltac:(lia) ltac:(lia) ltac:(apply depth_fuel_enough; lia) ltac:(lia)).
    destruct (IPRF._enumerate_recursive _ _ _ _ _ _ _ _ _ _ _ _ _)
      as [l|e|]; simpl in *; [|exact H1|exact H1].
    destruct H1 as (a & b & -> & Ha & Hb & Hx). simpl.
    destruct (sorted_spec (Py.range a b)) as [Hs Hin].
    { apply StronglySorted_lt_NoDup, range_sorted. }
    split; [exact Hs|]. intros x. rewrite Hin, range_In.
    unfold IPRF.forward, IPRF._trace_ball. fold n m.
    destruct (Z.leb_spec n x) as [Hge|Hlt].
    + split; intros H1; [lia|]. destruct H1; lia.
    + destruct (Z.eqb_spec m 1); [lia|].
      destruct (Z_le_dec 0 x) as [Hx0|Hx0]; [|split; intros H1; [lia|destruct H1; lia]].
      specialize (Hx x ltac:(lia)). replace (x - 0) with x in Hx by lia.
      rewrite Hx. split; [intros H1; split; [lia|exact H1]|intros [_ H1]; exact H1].
Qed.

End IPRFClaims.

(** ** The counter-mode generator *)

Lemma land_bound (a b : Z) : 0 <= a -> 0 <= b -> 0 <= Z.land a b <= b.
Proof.
  intros Ha Hb. split; [apply Z.land_nonneg; auto|].
  rewrite <- (Z2N.id a), <- (Z2N.id b) at 1 by assumption.
  rewrite <- N2Z.inj_land. rewrite <- (Z2N.id b) at 2 by assumption.
  apply N2Z.inj_le, N.land_le_r.
Qed.

Lemma shiftr32_u64 (c : Z) : 0 <= c < Py.U64 -> 0 <= Z.shiftr c 32 < Py.U64.
Proof.
  intros Hc. rewrite Z.shiftr_div_pow2 by lia. unfold Py.U64 in *.
  change (2 ^ 32) with 4294967296. zdiv.
Qed.

Section Generator.

Variable aes128_ecb : list byte -> Z -> Z.

Abbreviation uint64 := (DeterministicRNG.uint64 aes128_ecb).
Abbreviation uint64_n := (DeterministicRNG.uint64_n aes128_ecb).
Abbreviation reject_body := (DeterministicRNG.reject_body aes128_ecb).
Abbreviation reject_loop := (DeterministicRNG.reject_loop aes128_ecb).
Abbreviation word_at := (word_at aes128_ecb).

Lemma word_at_range (key : list byte) (c : Z) : 0 <= word_at key c < Py.U64.
Proof.
  unfold word_at, DeterministicRNG.encrypt, Py.U64.
  rewrite Z.shiftr_div_pow2 by lia.
  pose proof (Z.mod_pos_bound (aes128_ecb key (counter_block c)) (2 ^ 128) ltac:(lia)).
  change (2 ^ 128) with (2 ^ 64 * 2 ^ 64) in *.
  split; [apply Z.div_pos; lia|apply Z.div_lt_upper_bound; lia].
Qed.

Lemma uint64_Ok (self : DeterministicRNG.t) :
  0 <= DeterministicRNG.counter self < Py.U64 ->
  uint64 self =
    Ok (word_at (DeterministicRNG.key self) (DeterministicRNG.counter self), advance self).
Proof.
  intros Hc. unfold DeterministicRNG.uint64.
  rewrite (pack_Q_Ok (DeterministicRNG.counter self)) by exact Hc.
  rewrite (pack_Q_Ok (Z.shiftr _ 32)) by (apply shiftr32_u64; exact Hc).
  reflexivity.
Qed.

Lemma uint64_Raise (self : DeterministicRNG.t) :
  ~ 0 <= DeterministicRNG.counter self < Py.U64 -> uint64 self = Raise StructError.
Proof.
  intros Hc. unfold DeterministicRNG.uint64.
  rewrite (pack_Q_Raise (DeterministicRNG.counter self)) by exact Hc.
  reflexivity.
Qed.

Lemma reject_body_spec (threshold n : Z) (self : DeterministicRNG.t) :
  0 < n -> 0 <= DeterministicRNG.counter self ->
  match reject_body threshold n self with
  | inl r => draw_post self n r
  | inr self' =>
      DeterministicRNG.key self' = DeterministicRNG.key self /\
      DeterministicRNG.counter self' = DeterministicRNG.counter self + 1 /\
      DeterministicRNG.counter self' <= Py.U64
  end.
Proof.
  intros Hn Hc. unfold DeterministicRNG.reject_body.
  destruct (Z_lt_dec (DeterministicRNG.counter self) Py.U64) as [Hlt|Hge].
  - rewrite uint64_Ok by lia.
    destruct (_ <? _); simpl.
    + split; [apply Z.mod_pos_bound; lia|]. split; [reflexivity|lia].
    + split; [reflexivity|]. lia.
  - rewrite uint64_Raise by lia. reflexivity.
Qed.

Lemma reject_loop_spec (threshold n : Z) (fuel : positive) :
  0 < n ->
  forall self, 0 <= DeterministicRNG.counter self ->
  match reject_loop fuel threshold n self with
  | inl r => draw_post self n r
  | inr self' =>
      DeterministicRNG.key self' = DeterministicRNG.key self /\
      DeterministicRNG.counter self' = DeterministicRNG.counter self + Zpos fuel /\
      DeterministicRNG.counter self' <= Py.U64
  end.
Proof.
  intros Hn.
  assert (forall s s' r, DeterministicRNG.key s' = DeterministicRNG.key s ->
            DeterministicRNG.counter s <= DeterministicRNG.counter s' ->
            draw_post s' n r -> draw_post s n r) as Hmono.
  { intros s s' [[v s'']|e|] Hk Hle; simpl; [|auto|auto].
    intros (Hv & Hk' & Hc'). split; [exact Hv|]. split; [congruence|lia]. }
  induction fuel as [fuel IH|fuel IH|]; intros self Hc; cbn [DeterministicRNG.reject_loop].
  - pose proof (reject_body_spec threshold n self Hn Hc) as Hb.
    destruct (reject_body threshold n self) as [r|s1]; [exact Hb|].
    destruct Hb as (Hk1 & Hc1 & Hu1).
    pose proof (IH s1 ltac:(lia)) as H1.
    destruct (reject_loop fuel threshold n s1) as [r|s2];
      [apply (Hmono self s1); [assumption|lia|exact H1]|].
    destruct H1 as (Hk2 & Hc2 & Hu2).
    pose proof (IH s2 ltac:(lia)) as H2.
    destruct (reject_loop fuel threshold n s2) as [r|s3];
      [apply (Hmono self s2); [congruence|lia|exact H2]|].
    destruct H2 as (Hk3 & Hc3 & Hu3). split; [congruence|]. lia.
  - pose proof (IH self Hc) as H1.
    destruct (reject_loop fuel threshold n self) as [r|s1]; [exact H1|].
    destruct H1 as (Hk1 & Hc1 & Hu1).
    pose proof (IH s1 ltac:(lia)) as H2.
    destruct (reject_loop fuel threshold n s1) as [r|s2];
      [apply (Hmono self s1); [assumption|lia|exact H2]|].
    destruct H2 as (Hk2 & Hc2 & Hu2). split; [congruence|]. lia.
  - apply reject_body_spec; assumption.
Qed.

Lemma uint64_n_spec (self : DeterministicRNG.t) (n : Z) :
  2 <= n -> 0 <= DeterministicRNG.counter self ->
  draw_post self n (uint64_n self n).
Proof.
  intros Hn Hc. unfold DeterministicRNG.uint64_n.
  destruct (Z.eqb_spec n 0); [lia|]. destruct (Z.eqb_spec n 1); [lia|].
  destruct (Z.land n (n - 1) =? 0).
  - destruct (Z_lt_dec (DeterministicRNG.counter self) Py.U64) as [Hlt|Hge].
    + rewrite uint64_Ok by lia. simpl.
      pose proof (word_at_range (DeterministicRNG.key self) (DeterministicRNG.counter self)).
      pose proof (land_bound
        (word_at (DeterministicRNG.key self) (DeterministicRNG.counter self)) (n - 1)).
      split; [lia|]. split; [reflexivity|lia].
    + rewrite uint64_Raise by lia. reflexivity.
  - cbv zeta.
    pose proof (reject_loop_spec (Z.shiftl 1 64 - 1 - (Z.shiftl 1 64 - 1) mod n) n
                  (Z.to_pos (Py.U64 + 1)) ltac:(lia) self Hc) as H.
    destruct (reject_loop _ _ _ _) as [r|s']; [exact H|].
    destruct H as (_ & Hc' & Hu). exfalso.
    change (Z.pos (Z.to_pos (Py.U64 + 1))) with (Py.U64 + 1) in Hc'. lia.
Qed.

End Generator.

(** ** The shuffled tables *)

Lemma index_Ok (len k : Z) : 0 <= k < len -> Py.index len k = Ok (Z.to_nat k).
Proof.
  intros H. unfold Py.index.
  destruct (Z.leb_spec 0 k), (Z.ltb_spec k len); simpl; try lia. reflexivity.
Qed.

Lemma getitem_Ok (l : list Z) (k : Z) :
  0 <= k < Z.of_nat (length l) ->
  exists v, l !! Z.to_nat k = Some v /\ Py.getitem l k = Ok v.
Proof.
  intros H. unfold Py.getitem. rewrite index_Ok by exact H. simpl.
  destruct (lookup_lt_is_Some_2 l (Z.to_nat k)) as [v Hv]; [lia|].
  exists v. rewrite Hv. auto.
Qed.

Lemma setitem_Ok (l : list Z) (k v : Z) :
  0 <= k < Z.of_nat (length l) -> Py.setitem l k v = Ok (<[Z.to_nat k := v]> l).
Proof. intros H. unfold Py.setitem. rewrite index_Ok by exact H. reflexivity. Qed.

Lemma normalize_length (key : list byte) :
  length (DeterministicRNG.normalize key) = 16%nat.
Proof.
  unfold DeterministicRNG.normalize. cbv zeta.
  destruct (Nat.ltb_spec (length key) 16).
  - rewrite firstn_all2; rewrite length_app, repeat_length; lia.
  - rewrite length_firstn. lia.
Qed.

Lemma rng_new_Ok (key : list byte) :
  DeterministicRNG.__init__ key =
    Ok {| DeterministicRNG.key := DeterministicRNG.normalize key;
          DeterministicRNG.counter := 0 |}.
Proof.
  unfold DeterministicRNG.__init__, Py.AES_ECB. cbv zeta.
  rewrite normalize_length. reflexivity.
Qed.

Section Tables.

Variable aes128_ecb : list byte -> Z -> Z.

Abbreviation shuffle := (TablePRP.shuffle aes128_ecb).

Lemma swap_spec (perm : list Z) (i j : Z) :
  0 <= i < Z.of_nat (length perm) -> 0 <= j < Z.of_nat (length perm) ->
  exists perm', TablePRP.swap perm i j = Ok perm' /\ perm' ≡ₚ perm.
Proof.
  intros Hi Hj. unfold TablePRP.swap.
  destruct (getitem_Ok perm j Hj) as (vj & Hvj & ->).
  destruct (getitem_Ok perm i Hi) as (vi & Hvi & ->). simpl.
  rewrite setitem_Ok by exact Hi. simpl.
  rewrite setitem_Ok by (rewrite length_insert; exact Hj).
  eexists. split; [reflexivity|].
  apply Permutation_insert_swap; assumption.
Qed.

(** What the Fisher-Yates loop can end in: it draws at least once per
    turn, and a draw leaves the counter within 64 bits. *)
Lemma shuffle_spec (todo : nat) :
  forall i perm rng,
    i = Z.of_nat todo -> i < Z.of_nat (length perm) ->
    0 <= DeterministicRNG.counter rng <= Py.U64 ->
    match shuffle todo i perm rng with
    | Ok (perm', rng') =>
        perm' ≡ₚ perm /\
        DeterministicRNG.counter rng + i <= DeterministicRNG.counter rng' <= Py.U64
    | Raise e => e = StructError
    | Diverge => False
    end.
Proof.
  induction todo as [|todo IH]; intros i perm rng Hi Hlen Hc.
  - simpl. split; [reflexivity|]. lia.
  - cbn [TablePRP.shuffle].
    pose proof (uint64_n_spec aes128_ecb rng (i + 1) ltac:(lia) ltac:(lia)) as Hd.
    destruct (DeterministicRNG.uint64_n aes128_ecb rng (i + 1)) as [[j rng1]|e|];
      simpl in *; [|exact Hd|exact Hd].
    destruct Hd as (Hj & _ & Hc1).
    destruct (swap_spec perm i j) as (perm1 & -> & Hp1); [lia|lia|]. simpl.
    specialize (IH (i - 1) perm1 rng1 ltac:(lia)).
    rewrite (Permutation_length Hp1) in IH.
    specialize (IH ltac:(lia) ltac:(lia)).
    destruct (shuffle todo (i - 1) perm1 rng1) as [[perm2 rng2]|e|]; [|exact IH|exact IH].
    destruct IH as (Hp2 & Hc2).
    split; [etransitivity; eassumption|]. lia.
Qed.

Lemma range_cons (a b : Z) : a < b -> Py.range a b = a :: Py.range (a + 1) b.
Proof.
  intros H. unfold Py.range.
  replace (Z.to_nat (b - a)) with (S (Z.to_nat (b - (a + 1)))) by lia.
  cbn [seq List.map]. f_equal; [lia|].
  rewrite <- seq_shift, List.map_map. apply List.map_ext. intros i. lia.
Qed.

Lemma filled_start (perm : list Z) : filled perm 0 ∅ ∅.
Proof.
  split; [|split; [|split; reflexivity]].
  - intros x. rewrite lookup_empty. destruct (decide (0 <= x < 0)); [lia|reflexivity].
  - intros y x. rewrite lookup_empty. split; [discriminate|]. intros [? _]. lia.
Qed.

Lemma filled_step (perm : list Z) (k y : Z) (fwd inv : gmap Z Z) :
  NoDup perm -> 0 <= k -> perm !! Z.to_nat k = Some y ->
  filled perm k fwd inv -> filled perm (k + 1) (<[k := y]> fwd) (<[y := k]> inv).
Proof.
  intros Hnd Hk Hy (Hfwd & Hinv & Hsf & Hsi).
  assert (inv !! y = None) as Hfresh.
  { destruct (inv !! y) as [x|] eqn:E; [|reflexivity].
    apply Hinv in E. destruct E as [Hx Hpx].
    pose proof (NoDup_lookup _ _ _ _ Hnd Hpx Hy). lia. }
  split; [|split; [|split]].
  - intros x. destruct (decide (k = x)) as [<-|Hne].
    + rewrite lookup_insert_eq. destruct (decide (0 <= k < k + 1)); [congruence|lia].
    + rewrite lookup_insert_ne by exact Hne. rewrite Hfwd.
      destruct (decide (0 <= x < k)), (decide (0 <= x < k + 1)); try reflexivity; lia.
  - intros y' x. destruct (decide (y = y')) as [<-|Hne].
    + rewrite lookup_insert_eq. split.
      * intros [= <-]. split; [lia|exact Hy].
      * intros [Hx Hpx]. pose proof (NoDup_lookup _ _ _ _ Hnd Hpx Hy).
        f_equal. lia.
    + rewrite lookup_insert_ne by exact Hne. rewrite Hinv. split.
      * intros [Hx Hpx]. split; [lia|exact Hpx].
      * intros [Hx Hpx]. split; [|exact Hpx].
        assert (x <> k) by (intros ->; congruence). lia.
  - rewrite map_size_insert_None; [lia|].
    rewrite Hfwd. destruct (decide (0 <= k < k)); [lia|reflexivity].
  - rewrite map_size_insert_None; [lia|exact Hfresh].
Qed.

Lemma fill_spec (perm : list Z) (n : Z) (todo : nat) :
  NoDup perm -> n = Z.of_nat (length perm) ->
  forall k fwd inv,
    0 <= k -> k + Z.of_nat todo = n -> filled perm k fwd inv ->
    exists fwd' inv',
      TablePRP.fill (Py.range k n) perm fwd inv = Ok (fwd', inv') /\
      filled perm n fwd' inv'.
Proof.
  intros Hnd Hn. induction todo as [|todo IH]; intros k fwd inv Hk Hkn Hf.
  - rewrite range_empty by lia. simpl. replace n with k by lia. eauto.
  - rewrite range_cons by lia. cbn [TablePRP.fill].
    destruct (getitem_Ok perm k) as (y & Hy & ->); [lia|]. simpl.
    apply IH; [lia|lia|]. apply filled_step; assumption.
Qed.

(** What [_generate_permutation] can end in. *)
Lemma generate_outcome (n : Z) (key : list byte) :
  match TablePRP._generate_permutation aes128_ecb n key with
  | Ok (fwd, inv) =>
      0 < n -> exists perm, perm ≡ₚ Py.range 0 n /\ filled perm n fwd inv
  | Raise e => e = StructError
  | Diverge => False
  end.
Proof.
  unfold TablePRP._generate_permutation. rewrite rng_new_Ok. simpl.
  destruct (Z_lt_dec 0 n) as [Hn|Hn].
  - pose proof (shuffle_spec (Z.to_nat (n - 1)) (n - 1) (Py.range 0 n)
                  {| DeterministicRNG.key := DeterministicRNG.normalize key;
                     DeterministicRNG.counter := 0 |}) as Hs.
    rewrite range_length in Hs. cbn [DeterministicRNG.counter] in Hs.
    specialize (Hs ltac:(lia) ltac:(lia) ltac:(unfold Py.U64; lia)).
    destruct (shuffle _ _ _ _) as [[perm rng]|e|]; simpl; [|exact Hs|exact Hs].
    destruct Hs as (Hp & _).
    destruct (fill_spec perm n (Z.to_nat n)) with (k := 0) (fwd := (∅ : gmap Z Z))
      (inv := (∅ : gmap Z Z)) as (fwd & inv & -> & Hf).
    + rewrite Hp. apply StronglySorted_lt_NoDup, range_sorted.
    + rewrite (Permutation_length Hp), range_length. lia.
    + lia.
    + lia.
    + apply filled_start.
    + intros _. exists perm. split; assumption.
  - replace (Z.to_nat (n - 1)) with 0%nat by lia. simpl.
    rewrite range_empty by lia. simpl. lia.
Qed.

(** For [n >= 2^64 + 2] the loop needs more draws than the 64-bit counter
    allows. *)
Lemma generate_exhausts (n : Z) (key : list byte) :
  Py.U64 + 2 <= n ->
  TablePRP._generate_permutation aes128_ecb n key = Raise StructError.
Proof.
  intros Hn. unfold TablePRP._generate_permutation. rewrite rng_new_Ok. simpl.
  pose proof (shuffle_spec (Z.to_nat (n - 1)) (n - 1) (Py.range 0 n)
                {| DeterministicRNG.key := DeterministicRNG.normalize key;
                   DeterministicRNG.counter := 0 |}) as Hs.
  rewrite range_length in Hs. cbn [DeterministicRNG.counter] in Hs.
  assert (0 < Py.U64) by (unfold Py.U64; lia).
  specialize (Hs ltac:(lia) ltac:(lia) ltac:(lia)).
  destruct (shuffle _ _ _ _) as [[perm rng]|e|]; simpl.
  - lia.
  - now subst e.
  - contradiction.
Qed.

Lemma table_row_filled (perm : list Z) (n : Z) (fwd inv : gmap Z Z) :
  n = Z.of_nat (length perm) -> filled perm n fwd inv ->
  table_row fwd n = List.map Some perm.
Proof.
  intros Hn (Hfwd & _). unfold table_row. apply list_eq. intros i.
  change (List.map ?f ?l) with (f <$> l). rewrite !list_lookup_fmap.
  destruct (decide (i < length perm)%nat) as [Hi|Hi].
  - rewrite range_lookup by lia. simpl. rewrite Hfwd.
    destruct (decide (0 <= 0 + Z.of_nat i < n)); [|lia].
    replace (Z.to_nat (0 + Z.of_nat i)) with i by lia.
    destruct (lookup_lt_is_Some_2 perm i Hi) as [v ->]. reflexivity.
  - rewrite (lookup_ge_None_2 perm) by lia.
    rewrite lookup_ge_None_2 by (rewrite range_length; lia). reflexivity.
Qed.

Lemma filled_round_trip (perm : list Z) (n : Z) (fwd inv : gmap Z Z) (x : Z) :
  perm ≡ₚ Py.range 0 n -> filled perm n fwd inv -> 0 <= x < n ->
  exists y, fwd !! x = Some y /\ inv !! y = Some x /\ 0 <= y < n.
Proof.
  intros Hp (Hfwd & Hinv & _) Hx.
  pose proof (Permutation_length Hp) as Hlen. rewrite range_length in Hlen.
  destruct (lookup_lt_is_Some_2 perm (Z.to_nat x)) as [y Hy]; [lia|].
  exists y. split; [|split].
  - rewrite Hfwd. destruct (decide (0 <= x < n)); [exact Hy|lia].
  - apply Hinv. split; [exact Hx|exact Hy].
  - apply range_In. eapply Permutation_in; [exact Hp|].
    apply list_elem_of_In. eapply list_elem_of_lookup_2. exact Hy.
Qed.

Lemma round_trips_true (self : TablePRP.t) (xs : list Z) :
  (forall x, In x xs ->
     exists y, TablePRP.forward_table self !! x = Some y /\
               TablePRP.inverse_table self !! y = Some x) ->
  TablePRP.round_trips self xs = Ok true.
Proof.
  induction xs as [|x xs IH]; intros H; [reflexivity|].
  cbn [TablePRP.round_trips]. unfold TablePRP.lookup_table.
  destruct (H x ltac:(left; reflexivity)) as (y & -> & Hy). simpl. rewrite Hy. simpl.
  rewrite Z.eqb_refl. simpl. apply IH. intros x' Hx'. apply H. right. exact Hx'.
Qed.

End Tables.

(** ** Bytes of a block *)

Lemma lor_shiftl_add (hi lo : Z) :
  0 <= lo < 2 ^ 64 -> Z.lor (Z.shiftl hi 64) lo = hi * 2 ^ 64 + lo.
Proof.
  intros Hlo.
  assert (Z.land (Z.shiftl hi 64) lo = 0) as Hdisj.
  { apply Z.bits_inj'. intros k Hk. rewrite Z.land_spec, Z.bits_0.
    destruct (Z_lt_dec k 64) as [Hlt|Hge].
    - rewrite Z.shiftl_spec_low by lia. reflexivity.
    - destruct (Z.eq_dec lo 0) as [->|Hnz]; [rewrite Z.bits_0; apply andb_false_r|].
      rewrite (Z.bits_above_log2 lo k); [apply andb_false_r|lia|].
      assert (Z.log2 lo < 64) by (apply Z.log2_lt_pow2; lia). lia. }
  rewrite <- Z.lxor_lor by exact Hdisj.
  rewrite <- Z.add_nocarry_lxor by exact Hdisj.
  rewrite Z.shiftl_mul_pow2 by lia. reflexivity.
Qed.

Lemma counter_block_layout (c : Z) :
  0 <= c < Py.U64 ->
  Z.shiftr (counter_block c) 64 = c /\
  counter_block c mod 2 ^ 64 = Z.shiftr c 32.
Proof.
  intros Hc. pose proof (shiftr32_u64 c Hc) as Hs. unfold Py.U64 in *.
  unfold counter_block. rewrite lor_shiftl_add by exact Hs.
  rewrite Z.shiftr_div_pow2 by lia. split.
  - rewrite Z.div_add_l by lia. rewrite (Z.div_small (Z.shiftr c 32)) by exact Hs. lia.
  - rewrite Z.add_comm, Z.mod_add by lia. apply Z.mod_small. exact Hs.
Qed.

(** * Runs on the concrete instance *)

Example forward_12_5 :
  List.map (IPRF.forward Toy.aes128_ecb Toy.sha256 Toy.math_pow (Toy.iprf 12 5))
    (Py.range 0 12)
  = List.map Ok [0; 0; 1; 1; 2; 2; 3; 3; 3; 3; 4; 4].
Proof. vm_compute. reflexivity. Qed.

Example inverse_12_5 :
  List.map (IPRF.inverse Toy.aes128_ecb Toy.sha256 Toy.math_pow (Toy.iprf 12 5))
    (Py.range 0 5)
  = List.map Ok [[0; 1]; [2; 3]; [4; 5]; [6; 7; 8; 9]; [10; 11]].
Proof. vm_compute. reflexivity. Qed.

(** One bin: every ball lands in bin 0. *)
Example single_bin :
  IPRF.forward Toy.aes128_ecb Toy.sha256 Toy.math_pow (Toy.iprf 6 1) 4 = Ok 0 /\
  IPRF.inverse Toy.aes128_ecb Toy.sha256 Toy.math_pow (Toy.iprf 6 1) 0
    = Ok [0; 1; 2; 3; 4; 5].
Proof. split; vm_compute; reflexivity. Qed.

(** More than 100 balls at the root: the normal-approximation path. *)
Example inverse_300_3_sizes :
  List.map
    (fun y =>
       match IPRF.inverse Toy.aes128_ecb Toy.sha256 Toy.math_pow (Toy.iprf 300 3) y with
       | Ok l => Z.of_nat (length l)
       | _ => -1
       end)
    (Py.range 0 3)
  = [105; 88; 107].
Proof. vm_compute. reflexivity. Qed.

Example table_prp_7 :
  table_row (TablePRP.forward_table (Toy.prp 7)) 7
    = List.map Some [5; 3; 6; 0; 2; 4; 1] /\
  table_row (TablePRP.inverse_table (Toy.prp 7)) 7
    = List.map Some [3; 6; 4; 1; 5; 0; 2].
Proof. split; vm_compute; reflexivity. Qed.

Example uint64_n_edge_cases :
  DeterministicRNG.uint64_n Toy.aes128_ecb (Toy.rng 0) 0 = Ok (0, Toy.rng 0) /\
  DeterministicRNG.uint64_n Toy.aes128_ecb (Toy.rng 0) 1 = Ok (0, Toy.rng 0).
Proof. split; reflexivity. Qed.

(** * The claims *)

Section IPRFTheorems.

Variable aes128_ecb : list byte -> Z -> Z.
Variable sha256 : N -> Z -> Z.
Variable math_pow : float -> float -> float.
Variable math_log2 : Z -> float.

Abbreviation new := (IPRF.__init__ math_log2).
Abbreviation forward := (IPRF.forward aes128_ecb sha256 math_pow).
Abbreviation inverse := (IPRF.inverse aes128_ecb sha256 math_pow).


(** C2 (amended). For an IPRF built from a 16-byte key with
    [0 < n < 2^64] and [0 < m <= 2^64], and for every [x] in [0, n),
    [forward(x)] returns a value in [0, m). *)
Theorem forward_in_range (key : list byte) (n m : Z) (self : IPRF.t) (x : Z) :
  new key n m = Ok self ->
  0 < n < Py.U64 -> 0 < m <= Py.U64 -> 0 <= x < n ->
  exists y, forward self x = Ok y /\ 0 <= y < m.
Proof.
  intros Hnew Hn Hm Hx.
  destruct (new_Ok _ _ _ _ _ Hnew) as (_ & _ & _ & _ & Hdom & Hran).
  pose proof (forward_outcome aes128_ecb sha256 math_pow self x) as H.
  rewrite Hdom, Hran in H. specialize (H ltac:(lia) Hx).
  destruct (forward self x) as [v|e|]; simpl in H.
  - exists v. split; [reflexivity|exact H].
  - destruct H as [_ H]. exfalso. apply H. lia.
  - contradiction.
Qed.

(** C3. For a constructed IPRF with domain [n] and range [m],
    [forward(x)] returns [0] whenever [x >= n], and [inverse(y)] returns
    the empty list whenever [y >= m]. *)
Theorem out_of_range_absorbed (key : list byte) (n m : Z) (self : IPRF.t) (x y : Z) :
  new key n m = Ok self ->
  (n <= x -> forward self x = Ok 0) /\ (m <= y -> inverse self y = Ok []).
Proof.
  intros Hnew.
  destruct (new_Ok _ _ _ _ _ Hnew) as (_ & _ & _ & _ & Hdom & Hran).
  unfold IPRF.forward, IPRF.inverse. rewrite Hdom, Hran. split.
  - intros Hx. destruct (Z.leb_spec n x); [reflexivity|lia].
  - intros Hy. destruct (Z.leb_spec m y); [reflexivity|lia].
Qed.


End IPRFTheorems.



Lemma forward_in_range_witness :
  exists y,
    IPRF.forward Toy.aes128_ecb Toy.sha256 Toy.math_pow (Toy.iprf 12 5) 7 = Ok y /\
    0 <= y < 5.
Proof.
  apply (forward_in_range Toy.aes128_ecb Toy.sha256 Toy.math_pow Toy.math_log2
           Toy.key16 12 5 (Toy.iprf 12 5) 7).
  - vm_compute. reflexivity.
  - unfold Py.U64. lia.
  - unfold Py.U64. lia.
  - lia.
Defined.

Lemma forward_raises_beyond_u64 :
  IPRF.__init__ Toy.math_log2 Toy.key16 (2 ^ 64) 2 = Ok (Toy.iprf (2 ^ 64) 2) /\
  IPRF.forward Toy.aes128_ecb Toy.sha256 Toy.math_pow (Toy.iprf (2 ^ 64) 2) 0
    = Raise StructError.
Proof. split; vm_compute; reflexivity. Qed.

Lemma out_of_range_absorbed_witness :
  (1000 <= 1500 ->
   IPRF.forward Toy.aes128_ecb Toy.sha256 Toy.math_pow (Toy.iprf 1000 100) 1500 = Ok 0) /\
  (100 <= 500 ->
   IPRF.inverse Toy.aes128_ecb Toy.sha256 Toy.math_pow (Toy.iprf 1000 100) 500 = Ok []).
Proof.
  apply (out_of_range_absorbed Toy.aes128_ecb Toy.sha256 Toy.math_pow Toy.math_log2
           Toy.key16 1000 100 (Toy.iprf 1000 100) 1500 500).
  vm_compute. reflexivity.
Defined.



Section TableTheorems.

Variable aes128_ecb : list byte -> Z -> Z.
Variable math_log2 : Z -> float.

Lemma table_new_Ok (n : Z) (key : list byte) (t : TablePRP.t) :
  TablePRP.__init__ aes128_ecb n key = Ok t ->
  exists fwd inv,
    TablePRP._generate_permutation aes128_ecb n key = Ok (fwd, inv) /\
    t = {| TablePRP.domain := n; TablePRP.key := key;
           TablePRP.forward_table := fwd; TablePRP.inverse_table := inv |}.
Proof.
  unfold TablePRP.__init__.
  destruct (n =? 0); [discriminate|].
  destruct (negb _); [discriminate|].
  destruct (TablePRP._generate_permutation aes128_ecb n key) as [[fwd inv]|e|];
    simpl; intros [= <-]. eauto.
Qed.

Lemma table_new_exhausts (n : Z) (key : list byte) :
  Py.U64 + 2 <= n -> Z.of_nat (length key) = 16 ->
  TablePRP.__init__ aes128_ecb n key = Raise StructError.
Proof.
  intros Hn Hk. unfold TablePRP.__init__.
  assert (0 < Py.U64) by (unfold Py.U64; lia).
  destruct (Z.eqb_spec n 0); [lia|]. rewrite Hk. simpl.
  rewrite generate_exhausts by exact Hn. reflexivity.
Qed.

(** C4. For a TablePRP constructed with a positive domain [n] and a
    16-byte key: the forward table, read at the keys [0 .. n-1], is a
    permutation of [0, n); [inverse[forward[x]] = x] for every [x] in
    [0, n); both tables have exactly [n] entries; and [verify_bijection]
    says so. *)
Theorem table_prp_bijection (n : Z) (key : list byte) (t : TablePRP.t) :
  0 < n -> Z.of_nat (length key) = 16 ->
  TablePRP.__init__ aes128_ecb n key = Ok t ->
  (exists perm,
     table_row (TablePRP.forward_table t) n = List.map Some perm /\
     perm ≡ₚ Py.range 0 n) /\
  (forall x, 0 <= x < n ->
     exists y, TablePRP.forward_table t !! x = Some y /\
               TablePRP.inverse_table t !! y = Some x /\
               TablePRP.forward t x = Ok y /\ TablePRP.inverse t y = Ok x) /\
  Z.of_nat (size (TablePRP.forward_table t)) = n /\
  Z.of_nat (size (TablePRP.inverse_table t)) = n /\
  TablePRP.verify_bijection t = Ok true.
Proof.
  intros Hn Hk Hnew.
  destruct (table_new_Ok n key t Hnew) as (fwd & inv & Hgen & ->).
  pose proof (generate_outcome aes128_ecb n key) as Hout. rewrite Hgen in Hout.
  destruct (Hout Hn) as (perm & Hp & Hf).
  pose proof (Permutation_length Hp) as Hlen. rewrite range_length in Hlen.
  assert (forall x, 0 <= x < n ->
            exists y, fwd !! x = Some y /\ inv !! y = Some x /\ 0 <= y < n) as Hrt.
  { intros x Hx. eapply filled_round_trip; eassumption. }
  destruct Hf as (Hfwd & Hinv & Hsf & Hsi) eqn:E. clear E.
  cbn [TablePRP.forward_table TablePRP.inverse_table].
  split; [|split; [|split; [|split]]].
  - exists perm. split; [|exact Hp].
    apply (table_row_filled perm n fwd inv); [lia|].
    split; [|split; [|split]]; assumption.
  - intros x Hx. destruct (Hrt x Hx) as (y & Hy1 & Hy2 & Hy3).
    exists y. split; [exact Hy1|]. split; [exact Hy2|].
    unfold TablePRP.forward, TablePRP.inverse, TablePRP.lookup_table.
    cbn [TablePRP.domain TablePRP.forward_table TablePRP.inverse_table].
    destruct (Z.leb_spec n x), (Z.ltb_spec x 0); try lia.
    destruct (Z.leb_spec n y), (Z.ltb_spec y 0); try lia.
    simpl. rewrite Hy1, Hy2. split; reflexivity.
  - exact Hsf.
  - exact Hsi.
  - unfold TablePRP.verify_bijection.
    cbn [TablePRP.domain TablePRP.forward_table TablePRP.inverse_table].
    rewrite Hsf, Hsi, Z.eqb_refl. simpl.
    apply round_trips_true. intros x Hx. apply range_In in Hx.
    destruct (Hrt x ltac:(lia)) as (y & Hy1 & Hy2 & _). eauto.
Qed.


End TableTheorems.

Lemma table_prp_bijection_witness :
  (exists perm,
     table_row (TablePRP.forward_table (Toy.prp 7)) 7 = List.map Some perm /\
     perm ≡ₚ Py.range 0 7) /\
  (forall x, 0 <= x < 7 ->
     exists y, TablePRP.forward_table (Toy.prp 7) !! x = Some y /\
               TablePRP.inverse_table (Toy.prp 7) !! y = Some x /\
               TablePRP.forward (Toy.prp 7) x = Ok y /\
               TablePRP.inverse (Toy.prp 7) y = Ok x) /\
  Z.of_nat (size (TablePRP.forward_table (Toy.prp 7))) = 7 /\
  Z.of_nat (size (TablePRP.inverse_table (Toy.prp 7))) = 7 /\
  TablePRP.verify_bijection (Toy.prp 7) = Ok true.
Proof.
  apply (table_prp_bijection Toy.aes128_ecb 7 Toy.key16 (Toy.prp 7)).
  - lia.
  - reflexivity.
  - vm_compute. reflexivity.
Defined.


(** C6. At [n = 2^53 + 1], [m = 2^53] the method returns [1], the ceiling
    of the rounded binary64 quotient [1.0], where the exact ceiling of
    [n / m] is [2]. *)
Theorem expected_preimage_size_inexact :
  IPRF.__init__ Toy.math_log2 Toy.key16 (2 ^ 53 + 1) (2 ^ 53)
    = Ok (Toy.iprf (2 ^ 53 + 1) (2 ^ 53)) /\
  IPRF.get_expected_preimage_size (Toy.iprf (2 ^ 53 + 1) (2 ^ 53)) = 1 /\
  exact_ceil_div (2 ^ 53 + 1) (2 ^ 53) = 2 /\
  IPRF.get_expected_preimage_size (Toy.iprf 10000 100) = exact_ceil_div 10000 100.
Proof. repeat split; vm_compute; reflexivity. Qed.

Section SamplerTheorems.

Variable aes128_ecb : list byte -> Z -> Z.
Variable math_pow : float -> float -> float.

Lemma normal_path_value (n : Z) (p u : float) :
  IPRF._binomial_inverse_cdf_path n p u = IPRF.NormalApprox ->
  IPRF._binomial_inverse_cdf math_pow n p u = IPRF._normal_approx_binomial n p u.
Proof.
  unfold IPRF._binomial_inverse_cdf_path, IPRF._binomial_inverse_cdf.
  repeat match goal with
         | |- context [if ?c then _ else _] => destruct c; try discriminate
         end.
  reflexivity.
Qed.

Lemma normal_path_guards (n : Z) (p u : float) :
  IPRF._binomial_inverse_cdf_path n p u = IPRF.NormalApprox <->
  100 < n /\ (u <=? 0)%float = false /\ (1 <=? u)%float = false /\
  (p =? 0)%float = false /\ (p =? 1)%float = false.
Proof.
  unfold IPRF._binomial_inverse_cdf_path.
  destruct (u <=? 0)%float; [split; [discriminate|intros (_ & ? & _); discriminate]|].
  destruct (1 <=? u)%float; [split; [discriminate|intros (_ & _ & ? & _); discriminate]|].
  destruct (p =? 0)%float;
    [split; [discriminate|intros (_ & _ & _ & ? & _); discriminate]|].
  destruct (p =? 1)%float;
    [split; [discriminate|intros (_ & _ & _ & _ & ?); discriminate]|].
  destruct (Z.eqb_spec n 0) as [->|Hn0];
    [split; [discriminate|intros (? & _); lia]|].
  destruct (Z.ltb_spec 100 n); split; intros H0; try discriminate; try tauto.
  destruct H0 as (? & _). lia.
Qed.


End SamplerTheorems.


Section GeneratorTheorems.

Variable aes128_ecb : list byte -> Z -> Z.

(** C9. A call to [uint64()] at counter [c] (a u64) encrypts the 16-byte
    block whose first 8 bytes are [c] and whose last 8 bytes are
    [c >> 32], both big-endian, returns the first 8 bytes of the
    ciphertext as a big-endian u64, and leaves the counter at [c + 1]. *)
Theorem uint64_layout (self : DeterministicRNG.t) :
  0 <= DeterministicRNG.counter self < Py.U64 ->
  let c := DeterministicRNG.counter self in
  let input_block := counter_block c in
  let output_block := DeterministicRNG.encrypt aes128_ecb (DeterministicRNG.key self) input_block in
  Z.shiftr input_block 64 = c /\
  input_block mod 2 ^ 64 = Z.shiftr c 32 /\
  0 <= Z.shiftr output_block 64 < 2 ^ 64 /\
  DeterministicRNG.uint64 aes128_ecb self =
    Ok (Z.shiftr output_block 64,
        {| DeterministicRNG.key := DeterministicRNG.key self;
           DeterministicRNG.counter := c + 1 |}).
Proof.
  intros Hc c input_block output_block.
  destruct (counter_block_layout c Hc) as [Hhi Hlo].
  split; [exact Hhi|]. split; [exact Hlo|]. split.
  - apply (word_at_range aes128_ecb).
  - apply uint64_Ok. exact Hc.
Qed.

Lemma draws_same (k : nat) (r1 r2 : res DeterministicRNG.t) :
  r1 = r2 -> (r1 ≫= draws aes128_ecb k) = (r2 ≫= draws aes128_ecb k).
Proof. intros ->. reflexivity. Qed.

(** C10. The [DeterministicRNG] constructor accepts a key of any length:
    it keeps the key padded with zero bytes on the right up to 16 bytes
    when shorter, cut to its first 16 bytes when longer; two keys that
    agree after that build the same generator and give the same words. *)
Theorem rng_key_normalized (key : list byte) :
  DeterministicRNG.__init__ key =
    Ok {| DeterministicRNG.key := DeterministicRNG.normalize key;
          DeterministicRNG.counter := 0 |} /\
  length (DeterministicRNG.normalize key) = 16%nat /\
  ((length key < 16)%nat ->
     DeterministicRNG.normalize key = key ++ repeat x00 (16 - length key)) /\
  ((16 <= length key)%nat -> DeterministicRNG.normalize key = firstn 16 key) /\
  (forall key',
     DeterministicRNG.normalize key' = DeterministicRNG.normalize key ->
     DeterministicRNG.__init__ key' = DeterministicRNG.__init__ key /\
     forall k,
       (DeterministicRNG.__init__ key' ≫= draws aes128_ecb k) =
       (DeterministicRNG.__init__ key ≫= draws aes128_ecb k)).
Proof.
  split; [apply rng_new_Ok|]. split; [apply normalize_length|]. split; [|split].
  - intros Hlt. unfold DeterministicRNG.normalize. cbv zeta.
    destruct (Nat.ltb_spec (length key) 16); [|lia].
    apply firstn_all2. rewrite length_app, repeat_length. lia.
  - intros Hge. unfold DeterministicRNG.normalize. cbv zeta.
    destruct (Nat.ltb_spec (length key) 16); [lia|reflexivity].
  - intros key' Heq.
    assert (DeterministicRNG.__init__ key' = DeterministicRNG.__init__ key) as Hnew
      by (rewrite !rng_new_Ok, Heq; reflexivity).
    split; [exact Hnew|]. intros k. apply draws_same, Hnew.
Qed.

End GeneratorTheorems.

Lemma uint64_layout_witness :
  Z.shiftr (counter_block (2 ^ 40 + 5)) 64 = 2 ^ 40 + 5 /\
  counter_block (2 ^ 40 + 5) mod 2 ^ 64 = Z.shiftr (2 ^ 40 + 5) 32 /\
  0 <= Z.shiftr (DeterministicRNG.encrypt Toy.aes128_ecb Toy.key16
                   (counter_block (2 ^ 40 + 5))) 64 < 2 ^ 64 /\
  DeterministicRNG.uint64 Toy.aes128_ecb (Toy.rng (2 ^ 40 + 5)) =
    Ok (Z.shiftr (DeterministicRNG.encrypt Toy.aes128_ecb Toy.key16
                    (counter_block (2 ^ 40 + 5))) 64,
        Toy.rng (2 ^ 40 + 5 + 1)).
Proof.
  apply (uint64_layout Toy.aes128_ecb (Toy.rng (2 ^ 40 + 5))).
  unfold Py.U64. simpl. lia.
Defined.

(** The keys [01 02] and [01 02 00 00 00] build the same generator, and a
    20-byte key the same generator as its first 16 bytes. *)
Example rng_key_normalized_example :
  DeterministicRNG.__init__ [x01; x02] = DeterministicRNG.__init__ [x01; x02; x00; x00; x00] /\
  DeterministicRNG.__init__ (Toy.key16 ++ [x01; x02; x03; x04]) = DeterministicRNG.__init__ Toy.key16 /\
  (DeterministicRNG.__init__ (Toy.key16 ++ [x01; x02; x03; x04]) ≫= draws Toy.aes128_ecb 3) =
  (DeterministicRNG.__init__ Toy.key16 ≫= draws Toy.aes128_ecb 3).
Proof. repeat split; vm_compute; reflexivity. Qed.

(** * Further properties of the code *)

(** ** The generator *)

Lemma power_of_two_test (n : Z) :
  1 <= n -> (Z.land n (n - 1) = 0 <-> exists k, 0 <= k /\ n = 2 ^ k).
Proof.
  intros Hn. split.
  - intros Hland. exists (Z.log2 n). split; [apply Z.log2_nonneg|].
    destruct (Z.log2_spec n ltac:(lia)) as [Hlo Hhi].
    destruct (Z.eq_dec n (2 ^ Z.log2 n)) as [Heq|Hne]; [exact Heq|exfalso].
    assert (0 < 2 ^ Z.log2 n) by (apply Z.pow_pos_nonneg; [lia|apply Z.log2_nonneg]).
    assert (Z.log2 (n - 1) = Z.log2 n) as Hlog.
    { apply Z.log2_unique; [apply Z.log2_nonneg|]. lia. }
    assert (Z.testbit (Z.land n (n - 1)) (Z.log2 n) = true) as Hbit.
    { rewrite Z.land_spec, Z.bit_log2 by lia.
      rewrite <- Hlog at 1. rewrite Z.bit_log2 by lia. reflexivity. }
    rewrite Hland, Z.bits_0 in Hbit. discriminate.
  - intros (k & Hk & ->).
    replace (2 ^ k - 1) with (Z.ones k) by (rewrite Z.ones_equiv; lia).
    rewrite Z.land_ones by exact Hk. apply Z.mod_same. lia.
Qed.

Lemma land_pred_power (w k : Z) : 0 <= k -> Z.land w (2 ^ k - 1) = w mod 2 ^ k.
Proof.
  intros Hk. replace (2 ^ k - 1) with (Z.ones k) by (rewrite Z.ones_equiv; lia).
  apply Z.land_ones, Hk.
Qed.

Section GeneratorExtras.

Variable aes128_ecb : list byte -> Z -> Z.

Abbreviation uint64 := (DeterministicRNG.uint64 aes128_ecb).
Abbreviation uint64_n := (DeterministicRNG.uint64_n aes128_ecb).
Abbreviation reject_body := (DeterministicRNG.reject_body aes128_ecb).
Abbreviation reject_loop := (DeterministicRNG.reject_loop aes128_ecb).
Abbreviation word_at := (word_at aes128_ecb).
Abbreviation accepted_at := (accepted_at aes128_ecb).
Abbreviation draw_trace := (draw_trace aes128_ecb).

(** X1. For a bound [n >= 2], [uint64_n(n)] on a generator whose counter
    is not negative either returns a value in [0, n), with the key
    unchanged and the counter advanced to at most [2^64], or raises
    [struct.error]; the [while True] loop never runs forever. *)
Theorem uint64_n_in_range (self : DeterministicRNG.t) (n : Z) :
  2 <= n -> 0 <= DeterministicRNG.counter self ->
  match uint64_n self n with
  | Ok (v, self') =>
      0 <= v < n /\
      DeterministicRNG.key self' = DeterministicRNG.key self /\
      DeterministicRNG.counter self < DeterministicRNG.counter self' <= 2 ^ 64
  | Raise e => e = StructError
  | Diverge => False
  end.
Proof. intros Hn Hc. exact (uint64_n_spec aes128_ecb self n Hn Hc). Qed.

(** X2. The test [n & (n - 1) == 0] holds exactly for the powers of two,
    and on that path [uint64_n(n)] takes one word [w] and returns
    [w mod n]. *)
Theorem uint64_n_power_of_two (self : DeterministicRNG.t) (n : Z) :
  2 <= n -> 0 <= DeterministicRNG.counter self < Py.U64 ->
  (Z.land n (n - 1) = 0 <-> exists k, 0 <= k /\ n = 2 ^ k) /\
  (Z.land n (n - 1) = 0 ->
   uint64_n self n =
     Ok (word_at (DeterministicRNG.key self) (DeterministicRNG.counter self) mod n,
         advance self)).
Proof.
  intros Hn Hc. split; [apply power_of_two_test; lia|].
  intros Hland. unfold DeterministicRNG.uint64_n.
  destruct (Z.eqb_spec n 0); [lia|]. destruct (Z.eqb_spec n 1); [lia|].
  rewrite Hland, Z.eqb_refl, uint64_Ok by exact Hc. simpl.
  apply power_of_two_test in Hland; [|lia]. destruct Hland as (k & Hk & ->).
  rewrite land_pred_power by exact Hk. reflexivity.
Qed.

Lemma rejection_threshold_spec (n : Z) :
  1 <= n ->
  rejection_threshold n mod n = 0 /\
  0 <= rejection_threshold n <= 2 ^ 64 - 1 /\
  2 ^ 64 - 1 - rejection_threshold n < n.
Proof.
  intros Hn. unfold rejection_threshold. cbv zeta.
  change (Z.shiftl 1 64 - 1) with (2 ^ 64 - 1).
  pose proof (Z.mod_pos_bound (2 ^ 64 - 1) n ltac:(lia)) as Hm.
  pose proof (Z.mod_le (2 ^ 64 - 1) n ltac:(lia) ltac:(lia)) as Hle.
  split; [|lia].
  rewrite Zminus_mod, Z.mod_mod, Z.sub_diag by lia. apply Z.mod_0_l. lia.
Qed.

(** What the rejection loop does with the words it draws. *)
Lemma draw_trace_glue (key : list byte) (threshold n c d : Z)
    (r : res (Z * DeterministicRNG.t)) :
  0 <= d ->
  (forall j, c <= j < c + d -> threshold <= word_at key j) ->
  draw_trace key threshold n (c + d) r -> draw_trace key threshold n c r.
Proof.
  intros Hd Hrej. destruct r as [[v s']|e|]; simpl; [| |auto].
  - intros (c' & (Hc' & Hw & Hbefore) & Hv & Hs). exists c'.
    split; [|split; assumption]. split; [lia|]. split; [exact Hw|].
    intros j Hj. destruct (Z_lt_dec j (c + d)); [apply Hrej; lia|apply Hbefore; lia].
  - intros [-> Hall]. split; [reflexivity|]. intros j Hj.
    destruct (Z_lt_dec j (c + d)); [apply Hrej; lia|apply Hall; lia].
Qed.

Lemma reject_body_trace (threshold n : Z) (self : DeterministicRNG.t) :
  0 <= DeterministicRNG.counter self ->
  match reject_body threshold n self with
  | inl r =>
      draw_trace (DeterministicRNG.key self) threshold n (DeterministicRNG.counter self) r
  | inr self' =>
      self' = advance self /\
      DeterministicRNG.counter self + 1 <= Py.U64 /\
      threshold <= word_at (DeterministicRNG.key self) (DeterministicRNG.counter self)
  end.
Proof.
  intros Hc. unfold DeterministicRNG.reject_body.
  destruct (Z_lt_dec (DeterministicRNG.counter self) Py.U64) as [Hlt|Hge].
  - rewrite uint64_Ok by lia.
    destruct (Z.ltb_spec (word_at (DeterministicRNG.key self)
                            (DeterministicRNG.counter self)) threshold); simpl.
    + exists (DeterministicRNG.counter self). split; [|split; reflexivity].
      split; [lia|]. split; [assumption|]. intros j Hj. lia.
    + split; [reflexivity|]. split; [lia|assumption].
  - rewrite uint64_Raise by lia. simpl. split; [reflexivity|]. intros j Hj. lia.
Qed.

Lemma reject_loop_trace (threshold n : Z) (fuel : positive) :
  forall self, 0 <= DeterministicRNG.counter self ->
    match reject_loop fuel threshold n self with
    | inl r =>
        draw_trace (DeterministicRNG.key self) threshold n
          (DeterministicRNG.counter self) r
    | inr self' =>
        self' = {| DeterministicRNG.key := DeterministicRNG.key self;
                   DeterministicRNG.counter :=
                     DeterministicRNG.counter self + Zpos fuel |} /\
        DeterministicRNG.counter self + Zpos fuel <= Py.U64 /\
        forall j, DeterministicRNG.counter self <= j <
                  DeterministicRNG.counter self + Zpos fuel ->
                  threshold <= word_at (DeterministicRNG.key self) j
    end.
Proof.
  induction fuel as [fuel IH|fuel IH|]; intros self Hc;
    cbn [DeterministicRNG.reject_loop].
  - pose proof (reject_body_trace threshold n self Hc) as Hb.
    destruct (reject_body threshold n self) as [r|s1]; [exact Hb|].
    destruct Hb as (-> & Hu1 & Hr1).
    pose proof (IH (advance self) ltac:(simpl; lia)) as H1. simpl in H1.
    destruct (reject_loop fuel threshold n (advance self)) as [r|s2].
    + apply (draw_trace_glue _ _ _ _ 1); [lia| |exact H1].
      intros j Hj. replace j with (DeterministicRNG.counter self) by lia. exact Hr1.
    + destruct H1 as (-> & Hu2 & Hr2).
      assert (forall j, DeterministicRNG.counter self <= j <
                        DeterministicRNG.counter self + (1 + Z.pos fuel) ->
                        threshold <= word_at (DeterministicRNG.key self) j) as Hr12.
      { intros j Hj. destruct (Z_lt_dec j (DeterministicRNG.counter self + 1)).
        - replace j with (DeterministicRNG.counter self) by lia. exact Hr1.
        - apply Hr2. lia. }
      match goal with |- context [reject_loop fuel threshold n ?s] =>
        pose proof (IH s ltac:(simpl; lia)) as H2; simpl in H2;
        destruct (reject_loop fuel threshold n s) as [r|s3]
      end.
      * apply (draw_trace_glue _ _ _ _ (1 + Z.pos fuel)); [lia|exact Hr12|].
        replace (DeterministicRNG.counter self + (1 + Z.pos fuel))
          with (DeterministicRNG.counter self + 1 + Z.pos fuel) by lia. exact H2.
      * destruct H2 as (-> & Hu3 & Hr3).
        rewrite Pos2Z.inj_xI. split; [f_equal; lia|]. split; [lia|].
        intros j Hj.
        destruct (Z_lt_dec j (DeterministicRNG.counter self + (1 + Z.pos fuel)));
          [apply Hr12; lia|apply Hr3; lia].
  - pose proof (IH self Hc) as H1.
    destruct (reject_loop fuel threshold n self) as [r|s1]; [exact H1|].
    destruct H1 as (-> & Hu1 & Hr1).
    match goal with |- context [reject_loop fuel threshold n ?s] =>
      pose proof (IH s ltac:(simpl; lia)) as H2; simpl in H2;
      destruct (reject_loop fuel threshold n s) as [r|s2]
    end.
    + apply (draw_trace_glue _ _ _ _ (Z.pos fuel)); [lia|exact Hr1|exact H2].
    + destruct H2 as (-> & Hu2 & Hr2).
      rewrite Pos2Z.inj_xO. split; [f_equal; lia|]. split; [lia|].
      intros j Hj. destruct (Z_lt_dec j (DeterministicRNG.counter self + Z.pos fuel));
        [apply Hr1; lia|apply Hr2; lia].
  - pose proof (reject_body_trace threshold n self Hc) as Hb.
    destruct (reject_body threshold n self) as [r|s1]; [exact Hb|].
    destruct Hb as (-> & Hu1 & Hr1). split; [reflexivity|]. split; [lia|].
    intros j Hj. replace j with (DeterministicRNG.counter self) by lia. exact Hr1.
Qed.

(** X3. For a bound [n >= 3] that is not a power of two, the rejection
    threshold is the largest multiple of [n] up to [2^64 - 1]; a value
    that [uint64_n(n)] returns is [w mod n] for the first word [w] below
    the threshold, all words before it having been rejected, and the
    counter ends just after that word; [struct.error] is raised only when
    every remaining word of the 64-bit counter is rejected. *)
Theorem uint64_n_rejection (self : DeterministicRNG.t) (n : Z) :
  3 <= n -> Z.land n (n - 1) <> 0 -> 0 <= DeterministicRNG.counter self ->
  rejection_threshold n mod n = 0 /\
  0 <= rejection_threshold n <= 2 ^ 64 - 1 /\
  2 ^ 64 - 1 - rejection_threshold n < n /\
  draw_trace (DeterministicRNG.key self) (rejection_threshold n) n
    (DeterministicRNG.counter self) (uint64_n self n).
Proof.
  intros Hn Hland Hc.
  destruct (rejection_threshold_spec n ltac:(lia)) as (Hm & Hr & Hbig).
  split; [exact Hm|]. split; [exact Hr|]. split; [exact Hbig|].
  unfold DeterministicRNG.uint64_n.
  destruct (Z.eqb_spec n 0); [lia|]. destruct (Z.eqb_spec n 1); [lia|].
  destruct (Z.eqb_spec (Z.land n (n - 1)) 0); [contradiction|]. cbv zeta.
  fold (rejection_threshold n).
  pose proof (reject_loop_trace (rejection_threshold n) n (Z.to_pos (Py.U64 + 1))
                self Hc) as H.
  destruct (reject_loop _ _ _ _) as [r|s']; [exact H|].
  destruct H as (_ & Hu & _). exfalso.
  change (Z.pos (Z.to_pos (Py.U64 + 1))) with (Py.U64 + 1) in Hu. lia.
Qed.

(** X4. Two counters that fit in 64 bits and differ give different cipher
    input blocks: within one stream the cipher never sees a block twice. *)
Theorem counter_block_injective (c1 c2 : Z) :
  0 <= c1 < Py.U64 -> 0 <= c2 < Py.U64 ->
  counter_block c1 = counter_block c2 -> c1 = c2.
Proof.
  intros H1 H2 Heq.
  destruct (counter_block_layout c1 H1) as [<- _].
  destruct (counter_block_layout c2 H2) as [<- _].
  rewrite Heq. reflexivity.
Qed.

(** X5. Successive calls of [uint64()] from counter [c] give the words at
    the counters [c, c + 1, ...]: the [i]-th word depends on the key and
    on [i] only. [k] calls succeed as long as [c + k <= 2^64]. *)
Theorem draws_stream (k : nat) :
  forall self,
    0 <= DeterministicRNG.counter self ->
    DeterministicRNG.counter self + Z.of_nat k <= Py.U64 ->
    draws aes128_ecb k self =
      Ok (List.map (word_at (DeterministicRNG.key self))
            (Py.range (DeterministicRNG.counter self)
                      (DeterministicRNG.counter self + Z.of_nat k))).
Proof.
  induction k as [|k IH]; intros self Hc Hk.
  - simpl. rewrite range_empty by lia. reflexivity.
  - cbn [draws]. rewrite uint64_Ok by lia. simpl.
    rewrite (IH (advance self)) by (simpl; lia). simpl.
    rewrite (range_cons (DeterministicRNG.counter self)) by lia. simpl.
    replace (DeterministicRNG.counter self + Z.of_nat (S k))
      with (DeterministicRNG.counter self + 1 + Z.of_nat k) by lia.
    reflexivity.
Qed.

End GeneratorExtras.

(** ** The table-backed permutation *)

Section TableExtras.

Variable aes128_ecb : list byte -> Z -> Z.

Lemma table_constructed (n : Z) (key : list byte) (t : TablePRP.t) :
  0 < n -> TablePRP.__init__ aes128_ecb n key = Ok t ->
  TablePRP.domain t = n /\
  exists perm,
    perm ≡ₚ Py.range 0 n /\
    filled perm n (TablePRP.forward_table t) (TablePRP.inverse_table t).
Proof.
  intros Hn Hnew.
  destruct (table_new_Ok aes128_ecb n key t Hnew) as (fwd & inv & Hgen & ->).
  pose proof (generate_outcome aes128_ecb n key) as Hout. rewrite Hgen in Hout.
  split; [reflexivity|]. exact (Hout Hn).
Qed.

Lemma perm_lookup_range (perm : list Z) (n x y : Z) :
  perm ≡ₚ Py.range 0 n -> perm !! Z.to_nat x = Some y -> 0 <= y < n.
Proof.
  intros Hp Hy. apply range_In. eapply Permutation_in; [exact Hp|].
  apply list_elem_of_In. eapply list_elem_of_lookup_2. exact Hy.
Qed.

Lemma perm_lookup_index (perm : list Z) (n y : Z) :
  perm ≡ₚ Py.range 0 n -> 0 <= y < n ->
  exists x, 0 <= x < n /\ perm !! Z.to_nat x = Some y.
Proof.
  intros Hp Hy.
  pose proof (Permutation_length Hp) as Hlen. rewrite range_length in Hlen.
  assert (In y perm) as Hin.
  { eapply Permutation_in; [symmetry; exact Hp|]. apply range_In. exact Hy. }
  apply list_elem_of_In, list_elem_of_lookup_1 in Hin. destruct Hin as [i Hi].
  pose proof (lookup_lt_Some _ _ _ Hi). exists (Z.of_nat i).
  split; [lia|]. rewrite Nat2Z.id. exact Hi.
Qed.

(** X6. On a table constructed over a positive domain [n], [forward] and
    [inverse] raise [ValueError] exactly for an argument outside [0, n);
    inside it they return a value in [0, n), never a [KeyError]. *)
Theorem table_prp_lookup_errors (n : Z) (key : list byte) (t : TablePRP.t) (x : Z) :
  0 < n -> TablePRP.__init__ aes128_ecb n key = Ok t ->
  (TablePRP.forward t x = Raise ValueError <-> x < 0 \/ n <= x) /\
  (TablePRP.inverse t x = Raise ValueError <-> x < 0 \/ n <= x) /\
  (0 <= x < n ->
   (exists y, TablePRP.forward t x = Ok y /\ 0 <= y < n) /\
   (exists y, TablePRP.inverse t x = Ok y /\ 0 <= y < n)).
Proof.
  intros Hn Hnew.
  destruct (table_constructed n key t Hn Hnew) as (Hdom & perm & Hp & Hf).
  destruct Hf as (Hfwd & Hinv & _).
  pose proof (Permutation_length Hp) as Hlen. rewrite range_length in Hlen.
  unfold TablePRP.forward, TablePRP.inverse, TablePRP.lookup_table. rewrite Hdom.
  destruct (Z.leb_spec n x) as [Hge|Hlt]; simpl.
  { split; [split; [lia|reflexivity]|]. split; [split; [lia|reflexivity]|]. lia. }
  destruct (Z.ltb_spec x 0) as [Hneg|Hpos]; simpl.
  { split; [split; [lia|reflexivity]|]. split; [split; [lia|reflexivity]|]. lia. }
  destruct (lookup_lt_is_Some_2 perm (Z.to_nat x)) as [y Hy]; [lia|].
  assert (TablePRP.forward_table t !! x = Some y) as Hfx.
  { rewrite Hfwd. destruct (decide (0 <= x < n)); [exact Hy|lia]. }
  destruct (perm_lookup_index perm n x Hp ltac:(lia)) as (x' & Hx' & Hpx').
  assert (TablePRP.inverse_table t !! x = Some x') as Hix by (apply Hinv; auto).
  rewrite Hfx, Hix.
  split; [split; [discriminate|lia]|]. split; [split; [discriminate|lia]|].
  intros _. split; [exists y|exists x']; (split; [reflexivity|]).
  - eapply perm_lookup_range; eassumption.
  - lia.
Qed.

(** X7. On a table constructed over a positive domain [n], [inverse] is
    also a right inverse of [forward]: [forward(inverse(y)) = y] for
    every [y] in [0, n); and [forward] takes distinct arguments to
    distinct values. *)
Theorem table_prp_forward_inverse (n : Z) (key : list byte) (t : TablePRP.t) :
  0 < n -> TablePRP.__init__ aes128_ecb n key = Ok t ->
  (forall y, 0 <= y < n ->
     exists x, TablePRP.inverse t y = Ok x /\ 0 <= x < n /\
               TablePRP.forward t x = Ok y) /\
  (forall x1 x2 y,
     TablePRP.forward t x1 = Ok y -> TablePRP.forward t x2 = Ok y -> x1 = x2).
Proof.
  intros Hn Hnew.
  destruct (table_constructed n key t Hn Hnew) as (Hdom & perm & Hp & Hf).
  destruct Hf as (Hfwd & Hinv & _).
  assert (NoDup perm) as Hnd by (rewrite Hp; apply StronglySorted_lt_NoDup, range_sorted).
  assert (forall x y, TablePRP.forward t x = Ok y ->
                      0 <= x < n /\ perm !! Z.to_nat x = Some y) as Hfw.
  { intros x y. unfold TablePRP.forward, TablePRP.lookup_table. rewrite Hdom.
    destruct (Z.leb_spec n x); [discriminate|].
    destruct (Z.ltb_spec x 0); [discriminate|]. simpl.
    rewrite Hfwd. destruct (decide (0 <= x < n)); [|lia].
    destruct (perm !! Z.to_nat x); [|discriminate]. intros [= ->]. auto. }
  split.
  - intros y Hy.
    destruct (perm_lookup_index perm n y Hp Hy) as (x & Hx & Hpx).
    exists x. unfold TablePRP.forward, TablePRP.inverse, TablePRP.lookup_table.
    rewrite Hdom.
    destruct (Z.leb_spec n y), (Z.ltb_spec y 0); try lia.
    destruct (Z.leb_spec n x), (Z.ltb_spec x 0); try lia. simpl.
    assert (TablePRP.inverse_table t !! y = Some x) as -> by (apply Hinv; auto).
    rewrite Hfwd. destruct (decide (0 <= x < n)); [|lia]. rewrite Hpx. auto.
  - intros x1 x2 y H1 H2.
    destruct (Hfw _ _ H1) as [Hx1 Hp1]. destruct (Hfw _ _ H2) as [Hx2 Hp2].
    pose proof (NoDup_lookup _ _ _ _ Hnd Hp1 Hp2). lia.
Qed.

(** X8. A negative domain is not rejected: for [n < 0] and a 16-byte key
    the constructor returns an instance with both tables empty, on which
    [verify_bijection] returns [False] and every [forward] and [inverse]
    raises [ValueError]. *)
Theorem table_prp_negative_domain (n : Z) (key : list byte) :
  n < 0 -> Z.of_nat (length key) = 16 ->
  exists t,
    TablePRP.__init__ aes128_ecb n key = Ok t /\
    TablePRP.forward_table t = ∅ /\ TablePRP.inverse_table t = ∅ /\
    TablePRP.verify_bijection t = Ok false /\
    forall x, TablePRP.forward t x = Raise ValueError /\
              TablePRP.inverse t x = Raise ValueError.
Proof.
  intros Hn Hk. unfold TablePRP.__init__.
  destruct (Z.eqb_spec n 0); [lia|]. rewrite Hk. simpl.
  unfold TablePRP._generate_permutation. rewrite rng_new_Ok. simpl.
  replace (Z.to_nat (n - 1)) with 0%nat by lia. simpl.
  rewrite range_empty by lia. simpl.
  eexists. split; [reflexivity|]. simpl. split; [reflexivity|]. split; [reflexivity|].
  split.
  - unfold TablePRP.verify_bijection. simpl. rewrite map_size_empty.
    destruct (Z.eqb_spec (Z.of_nat 0) n); [lia|]. reflexivity.
  - intros x. unfold TablePRP.forward, TablePRP.inverse. simpl.
    destruct (Z.leb_spec n x), (Z.ltb_spec x 0); try lia; split; reflexivity.
Qed.

End TableExtras.

(** ** The iPRF *)

Lemma sorted_lt_unique (l1 l2 : list Z) :
  StronglySorted Z.lt l1 -> StronglySorted Z.lt l2 ->
  (forall x, In x l1 <-> In x l2) -> l1 = l2.
Proof.
  intros H1. revert l2. induction H1 as [|x1 l1 Hs1 IH Hx1]; intros l2 H2 Hin.
  - destruct l2 as [|x2 l2]; [reflexivity|].
    exfalso. apply (Hin x2). now left.
  - destruct H2 as [|x2 l2 Hs2 Hx2].
    { exfalso. apply (Hin x1). now left. }
    rewrite List.Forall_forall in Hx1, Hx2.
    assert (x1 = x2) as <-.
    { destruct (proj1 (Hin x1) ltac:(now left)) as [E|E]; [congruence|].
      destruct (proj2 (Hin x2) ltac:(now left)) as [E'|E']; [congruence|].
      specialize (Hx1 _ E'). specialize (Hx2 _ E). lia. }
    f_equal. apply IH; [exact Hs2|]. intros x. split; intros Hx.
    + destruct (proj1 (Hin x) ltac:(now right)) as [E|E]; [|exact E].
      specialize (Hx1 _ Hx). lia.
    + destruct (proj2 (Hin x) ltac:(now right)) as [E|E]; [|exact E].
      specialize (Hx2 _ Hx). lia.
Qed.

Lemma sorted_lt_app (l1 l2 : list Z) :
  (forall x1 x2, In x1 l1 -> In x2 l2 -> x1 < x2) ->
  StronglySorted Z.lt l1 -> StronglySorted Z.lt l2 ->
  StronglySorted Z.lt (l1 ++ l2).
Proof.
  intros Hlt H1 H2. induction H1 as [|x l1 Hs IH Hx]; simpl; [exact H2|].
  constructor.
  - apply IH. intros x1 x2 Hx1 Hx2. apply Hlt; [now right|exact Hx2].
  - rewrite List.Forall_forall in *. intros z Hz. apply in_app_or in Hz.
    destruct Hz as [Hz|Hz]; [apply Hx, Hz|apply Hlt; [now left|exact Hz]].
Qed.

Lemma sorted_id (l : list Z) : StronglySorted Z.lt l -> IPRF.sorted l = l.
Proof.
  intros Hl. destruct (sorted_spec l (StronglySorted_lt_NoDup l Hl)) as [Hs Hin].
  apply sorted_lt_unique; assumption.
Qed.

Lemma concat_sorted (f : Z -> list Z) (ys : list Z) :
  StronglySorted Z.lt ys ->
  (forall y, In y ys -> StronglySorted Z.lt (f y)) ->
  (forall y y' x x', In y ys -> In y' ys -> y < y' ->
                     In x (f y) -> In x' (f y') -> x < x') ->
  StronglySorted Z.lt (concat (List.map f ys)).
Proof.
  induction 1 as [|y ys Hys IH Hy]; intros Hf Hord; simpl; [constructor|].
  apply sorted_lt_app.
  - intros x1 x2 H1 H2.
    apply in_concat in H2. destruct H2 as (l & Hl & H2).
    apply in_map_iff in Hl. destruct Hl as (y' & <- & Hy').
    apply (Hord y y'); auto; [now left|now right|].
    rewrite List.Forall_forall in Hy. apply Hy, Hy'.
  - apply Hf. now left.
  - apply IH.
    + intros y' Hy'. apply Hf. now right.
    + intros y1 y2 x x' H1 H2. apply Hord; now right.
Qed.

Section IPRFExtras.

Variable aes128_ecb : list byte -> Z -> Z.
Variable sha256 : N -> Z -> Z.
Variable math_pow : float -> float -> float.
Variable math_log2 : Z -> float.

Abbreviation new := (IPRF.__init__ math_log2).
Abbreviation forward := (IPRF.forward aes128_ecb sha256 math_pow).
Abbreviation inverse := (IPRF.inverse aes128_ecb sha256 math_pow).
Abbreviation pre := (preimages aes128_ecb sha256 math_pow).
Abbreviation trace_loop := (IPRF.trace_loop aes128_ecb sha256 math_pow).
Abbreviation enumerate := (IPRF._enumerate_recursive aes128_ecb sha256 math_pow).

Lemma trace_loop_monotone (self : IPRF.t) (fuel : nat) :
  forall n low high bc bi bi' y y',
    bi <= bi' ->
    trace_loop self fuel n low high bc bi = Ok y ->
    trace_loop self fuel n low high bc bi' = Ok y' ->
    y <= y'.
Proof.
  induction fuel as [|fuel IH]; intros n low high bc bi bi' y y' Hbi.
  - destruct (Z_lt_dec low high) as [Hlt|Hge].
    + cbn [IPRF.trace_loop]. destruct (Z.ltb_spec low high); [discriminate|lia].
    + rewrite !trace_loop_leaf by lia. intros [= <-] [= <-]. lia.
  - destruct (Z_lt_dec low high) as [Hlt|Hge];
      [|rewrite !trace_loop_leaf by lia; intros [= <-] [= <-]; lia].
    destruct (encode_node_cases sha256 low high n) as [(id & Hid & _)|[Hid _]].
    + rewrite !(trace_loop_node _ _ _ _ _ _ _ _ _ _ id) by assumption. cbv zeta.
      set (lc := split_at aes128_ecb math_pow self low high bc id).
      assert (low <= (low + high) / 2 < high) as Hmid by zdiv.
      destruct (Z.ltb_spec bi lc), (Z.ltb_spec bi' lc); try lia.
      * apply IH. exact Hbi.
      * intros H1 H2. apply trace_loop_range in H1; [|lia].
        apply trace_loop_range in H2; [|lia]. lia.
      * apply IH. lia.
    + rewrite (trace_loop_raise _ _ _ _ _ _ _ _ _ _ StructError) by assumption.
      discriminate.
Qed.

(** X9. The map is monotone: for an IPRF constructed with
    [0 < n < 2^64] and [0 < m <= 2^64] and for [x <= x'] in [0, n),
    [forward(x) <= forward(x')]: the walk sends the balls to the bins in
    their order. *)
Theorem forward_monotone (key : list byte) (n m : Z) (self : IPRF.t) (x x' : Z) :
  new key n m = Ok self ->
  0 < n < Py.U64 -> 0 < m <= Py.U64 -> 0 <= x -> x <= x' -> x' < n ->
  exists y y', forward self x = Ok y /\ forward self x' = Ok y' /\ y <= y'.
Proof.
  intros Hnew Hn Hm Hx Hxx Hx'.
  destruct (new_Ok _ _ _ _ _ Hnew) as (_ & _ & _ & _ & Hdom & Hran).
  pose proof (forward_outcome aes128_ecb sha256 math_pow self x) as H1.
  pose proof (forward_outcome aes128_ecb sha256 math_pow self x') as H2.
  rewrite Hdom, Hran in H1, H2.
  specialize (H1 ltac:(lia) ltac:(lia)). specialize (H2 ltac:(lia) ltac:(lia)).
  destruct (forward self x) as [y|e|] eqn:E1; simpl in H1;
    [|destruct H1 as [_ H1]; exfalso; apply H1; lia|contradiction].
  destruct (forward self x') as [y'|e|] eqn:E2; simpl in H2;
    [|destruct H2 as [_ H2]; exfalso; apply H2; lia|contradiction].
  exists y, y'. split; [reflexivity|]. split; [reflexivity|].
  unfold IPRF.forward, IPRF._trace_ball in E1, E2. rewrite Hdom, Hran in E1, E2.
  destruct (Z.leb_spec n x); [lia|]. destruct (Z.leb_spec n x'); [lia|].
  destruct (m =? 1); [injection E1 as <-; injection E2 as <-; lia|].
  eapply trace_loop_monotone; [exact Hxx|exact E1|exact E2].
Qed.

Lemma run_of_balls (self : IPRF.t) (y : Z) :
  0 < IPRF.domain self -> 0 <= y < IPRF.range_size self ->
  walk_post (IPRF.domain self) (IPRF.range_size self - 1)
    (fun l => exists a b, 0 <= a /\ a <= b /\ b <= IPRF.domain self /\ l = Py.range a b)
    (inverse self y).
Proof.
  intros Hn Hy. unfold IPRF.inverse.
  destruct (Z.leb_spec (IPRF.range_size self) y); [lia|].
  unfold IPRF._enumerate_balls_in_bin.
  destruct (Z.eqb_spec (IPRF.range_size self) 1) as [Hm1|Hm1].
  - simpl. exists 0, (IPRF.domain self). repeat split; lia.
  - set (n := IPRF.domain self) in *. set (m := IPRF.range_size self) in *.
    pose proof (enumerate_outcome aes128_ecb sha256 math_pow self
                  (IPRF.depth_fuel m) y n 0 (m - 1) n 0 []) as H1.
    replace (0 + n - 1) with (n - 1) in H1 by lia.
    specialize (H1 ltac:(lia) ltac:(lia) ltac:(apply depth_fuel_enough; lia) ltac:(lia)).
    destruct (IPRF._enumerate_recursive _ _ _ _ _ _ _ _ _ _ _ _ _)
      as [l|e|]; simpl in *; [|exact H1|exact H1].
    destruct H1 as (a & b & -> & Ha & Hb & _). simpl.
    rewrite sorted_id by apply range_sorted.
    destruct (Z_le_dec a b).
    + exists a, b. repeat split; lia.
    + exists 0, 0. rewrite (range_empty a b), (range_empty 0 0) by lia.
      repeat split; lia.
Qed.



End IPRFExtras.

Lemma lor_shiftl_add_w (w hi lo : Z) :
  0 <= w -> 0 <= lo < 2 ^ w -> Z.lor (Z.shiftl hi w) lo = hi * 2 ^ w + lo.
Proof.
  intros Hw Hlo.
  assert (Z.land (Z.shiftl hi w) lo = 0) as Hdisj.
  { apply Z.bits_inj'. intros k Hk. rewrite Z.land_spec, Z.bits_0.
    destruct (Z_lt_dec k w) as [Hlt|Hge].
    - rewrite Z.shiftl_spec_low by lia. reflexivity.
    - destruct (Z.eq_dec lo 0) as [->|Hnz]; [rewrite Z.bits_0; apply andb_false_r|].
      rewrite (Z.bits_above_log2 lo k); [apply andb_false_r|lia|].
      assert (Z.log2 lo < w) by (apply Z.log2_lt_pow2; lia). lia. }
  rewrite <- Z.lxor_lor by exact Hdisj.
  rewrite <- Z.add_nocarry_lxor by exact Hdisj.
  rewrite Z.shiftl_mul_pow2 by lia. reflexivity.
Qed.

Lemma node_buffer_value (low high n : Z) :
  0 <= high < Py.U64 -> 0 <= n < Py.U64 ->
  node_buffer low high n = low * 2 ^ 128 + high * 2 ^ 64 + n.
Proof.
  unfold Py.U64, node_buffer. intros Hh Hn.
  rewrite (lor_shiftl_add_w 64 high n) by lia.
  rewrite lor_shiftl_add_w by (change (2 ^ 128) with (2 ^ 64 * 2 ^ 64); nia). lia.
Qed.

Section IPRFEdges.

Variable aes128_ecb : list byte -> Z -> Z.
Variable sha256 : N -> Z -> Z.
Variable math_pow : float -> float -> float.
Variable math_log2 : Z -> float.

Abbreviation new := (IPRF.__init__ math_log2).
Abbreviation forward := (IPRF.forward aes128_ecb sha256 math_pow).
Abbreviation inverse := (IPRF.inverse aes128_ecb sha256 math_pow).
Abbreviation trace_loop := (IPRF.trace_loop aes128_ecb sha256 math_pow).
Abbreviation enumerate := (IPRF._enumerate_recursive aes128_ecb sha256 math_pow).

Lemma trace_loop_negative (self : IPRF.t) (fuel : nat) :
  forall n low high bc bi,
    bi < 0 -> 0 <= bc -> 0 <= low <= high -> high - low < 2 ^ Z.of_nat fuel ->
    0 <= n < Py.U64 -> high < Py.U64 ->
    trace_loop self fuel n low high bc bi = Ok low.
Proof.
  induction fuel as [|fuel IH]; intros n low high bc bi Hbi Hbc Hlh Hfuel Hn Hh.
  - apply trace_loop_leaf. simpl in Hfuel. lia.
  - destruct (Z_lt_dec low high) as [Hlt|Hge]; [|apply trace_loop_leaf; lia].
    rewrite pow2_succ in Hfuel.
    destruct (encode_node_cases sha256 low high n) as [(id & Hid & _)|[_ Hbad]];
      [|exfalso; apply Hbad; lia].
    rewrite (trace_loop_node _ _ _ _ _ _ _ _ _ _ id) by assumption. cbv zeta.
    pose proof (split_at_range aes128_ecb math_pow self low high bc id Hbc) as Hlc.
    destruct (Z.ltb_spec bi (split_at aes128_ecb math_pow self low high bc id)); [|lia].
    apply IH; try lia; zdiv.
Qed.

Lemma enumerate_below (self : IPRF.t) (fuel : nat) :
  forall target n low high bc start stop acc,
    target < low -> 0 <= low <= high -> high - low < 2 ^ Z.of_nat fuel ->
    0 <= n < Py.U64 -> high < Py.U64 ->
    enumerate self fuel target low high n bc start stop acc = Ok acc.
Proof.
  induction fuel as [|fuel IH];
    intros target n low high bc start stop acc Ht Hlh Hfuel Hn Hh.
  all: destruct (Z_lt_dec stop start) as [Hss|Hss];
    [apply enumerate_skip; lia|].
  all: destruct (Z.eq_dec bc 0) as [Hbc|Hbc]; [apply enumerate_skip; lia|].
  all: destruct (Z.eq_dec low high) as [<-|Hne];
    [rewrite enumerate_leaf by lia; destruct (Z.eqb_spec low target); [lia|reflexivity]|].
  - simpl in Hfuel. lia.
  - rewrite pow2_succ in Hfuel.
    destruct (encode_node_cases sha256 low high n) as [(id & Hid & _)|[_ Hbad]];
      [|exfalso; apply Hbad; lia].
    rewrite (enumerate_node _ _ _ _ _ _ _ _ _ _ _ _ id) by (assumption || lia).
    cbv zeta. assert (low <= (low + high) / 2 < high) as Hmid by zdiv.
    destruct (Z.leb_spec target ((low + high) / 2)); [|lia].
    destruct (_ && _); [|reflexivity].
    apply IH; try lia; zdiv.
Qed.



(** X14. [_prf_eval(x)] is a 64-bit word, and it reads [x] modulo
    [2^64] only: arguments that agree modulo [2^64], negative ones
    included, get the same value. *)
Theorem prf_eval_word (self : IPRF.t) (x : Z) :
  0 <= IPRF._prf_eval aes128_ecb self x < 2 ^ 64 /\
  IPRF._prf_eval aes128_ecb self x = IPRF._prf_eval aes128_ecb self (x mod 2 ^ 64) /\
  forall x', x mod 2 ^ 64 = x' mod 2 ^ 64 ->
             IPRF._prf_eval aes128_ecb self x = IPRF._prf_eval aes128_ecb self x'.
Proof.
  assert (forall z, Z.land z 0xFFFFFFFFFFFFFFFF = z mod 2 ^ 64) as Hmask.
  { intros z. change 0xFFFFFFFFFFFFFFFF with (2 ^ 64 - 1).
    apply land_pred_power. lia. }
  unfold IPRF._prf_eval. cbv zeta. rewrite !Hmask. split; [|split].
  - unfold IPRF.encrypt. rewrite Z.shiftr_div_pow2 by lia.
    pose proof (Z.mod_pos_bound (aes128_ecb (IPRF.key self) (x mod 2 ^ 64)) (2 ^ 128)
                  ltac:(lia)) as Hb.
    change (2 ^ 128) with (2 ^ 64 * 2 ^ 64) in *.
    split; [apply Z.div_pos; lia|apply Z.div_lt_upper_bound; lia].
  - rewrite Z.mod_mod by lia. reflexivity.
  - intros x' Heq. rewrite !Hmask, Heq. reflexivity.
Qed.

(** X15. [encode_node(low, high, n)] raises [struct.error] exactly when
    one of its arguments is outside [0, 2^64); otherwise it returns the
    first 8 bytes of the digest of the 24-byte buffer, a 64-bit word, and
    the buffer determines the triple: two identifiers can collide only
    through the hash. *)
Theorem encode_node_packing (low high n : Z) :
  let fits := 0 <= low < Py.U64 /\ 0 <= high < Py.U64 /\ 0 <= n < Py.U64 in
  (encode_node sha256 low high n = Raise StructError <-> ~ fits) /\
  (fits ->
   encode_node sha256 low high n
     = Ok (Z.shiftr (digest sha256 24 (node_buffer low high n)) 192) /\
   0 <= Z.shiftr (digest sha256 24 (node_buffer low high n)) 192 < 2 ^ 64) /\
  (forall low' high' n',
     fits -> 0 <= low' < Py.U64 /\ 0 <= high' < Py.U64 /\ 0 <= n' < Py.U64 ->
     node_buffer low high n = node_buffer low' high' n' ->
     low = low' /\ high = high' /\ n = n').
Proof.
  intros fits. split; [|split].
  - destruct (encode_node_cases sha256 low high n) as [(id & -> & Hfits)|[-> Hbad]].
    + split; [discriminate|]. intros H. exfalso. apply H. exact Hfits.
    + split; [intros _; exact Hbad|reflexivity].
  - intros (Hl & Hh & Hn). split.
    + unfold encode_node.
      rewrite (pack_Q_Ok low), (pack_Q_Ok high), (pack_Q_Ok n) by assumption.
      reflexivity.
    + unfold digest. rewrite Z.shiftr_div_pow2 by lia.
      pose proof (Z.mod_pos_bound (sha256 24%N (node_buffer low high n)) (2 ^ 256)
                    ltac:(lia)) as Hb.
      change (2 ^ 256) with (2 ^ 192 * 2 ^ 64) in *.
      split; [apply Z.div_pos; lia|apply Z.div_lt_upper_bound; lia].
  - intros low' high' n' (Hl & Hh & Hn) (Hl' & Hh' & Hn').
    rewrite !node_buffer_value by assumption. unfold Py.U64 in *.
    change (2 ^ 128) with (2 ^ 64 * 2 ^ 64). intros Heq. nia.
Qed.

Lemma sample_same_key (self self' : IPRF.t) (node_id n : Z) (p : float) :
  IPRF.key self = IPRF.key self' ->
  IPRF._sample_binomial aes128_ecb math_pow self node_id n p
  = IPRF._sample_binomial aes128_ecb math_pow self' node_id n p.
Proof.
  intros Hk. unfold IPRF._sample_binomial, IPRF._prf_eval. rewrite Hk. reflexivity.
Qed.

Lemma trace_loop_same_key (self self' : IPRF.t) (fuel : nat) :
  IPRF.key self = IPRF.key self' ->
  forall n low high bc bi,
    trace_loop self fuel n low high bc bi = trace_loop self' fuel n low high bc bi.
Proof.
  intros Hk. induction fuel as [|fuel IH]; intros n low high bc bi;
    cbn [IPRF.trace_loop]; [reflexivity|].
  destruct (low <? high); [|reflexivity].
  destruct (encode_node sha256 low high n) as [id|e|];
    cbn [mbind res_bind]; try reflexivity.
  rewrite (sample_same_key self self') by exact Hk.
  destruct (_ <? _); apply IH.
Qed.

Lemma enumerate_same_key (self self' : IPRF.t) (fuel : nat) :
  IPRF.key self = IPRF.key self' ->
  forall target n low high bc start stop acc,
    enumerate self fuel target low high n bc start stop acc
    = enumerate self' fuel target low high n bc start stop acc.
Proof.
  intros Hk. induction fuel as [|fuel IH];
    intros target n low high bc start stop acc;
    cbn [IPRF._enumerate_recursive]; [reflexivity|].
  destruct (_ || _); [reflexivity|]. destruct (low =? high); [reflexivity|].
  destruct (encode_node sha256 low high n) as [id|e|];
    cbn [mbind res_bind]; try reflexivity.
  rewrite (sample_same_key self self') by exact Hk.
  destruct (_ <=? _); destruct (_ && _); try reflexivity; apply IH.
Qed.

(** X16. [forward] and [inverse] read the key, the domain and the range
    of the instance and nothing else: the attribute [tree_depth] is never
    consulted. *)
Theorem tree_depth_unused (self self' : IPRF.t) (x y : Z) :
  IPRF.key self = IPRF.key self' ->
  IPRF.domain self = IPRF.domain self' ->
  IPRF.range_size self = IPRF.range_size self' ->
  forward self x = forward self' x /\ inverse self y = inverse self' y.
Proof.
  intros Hk Hd Hr.
  unfold IPRF.forward, IPRF._trace_ball, IPRF.inverse, IPRF._enumerate_balls_in_bin.
  rewrite Hd, Hr. split.
  - destruct (_ <=? _); [reflexivity|]. destruct (_ =? _); [reflexivity|].
    apply trace_loop_same_key, Hk.
  - destruct (_ <=? _); [reflexivity|]. destruct (_ =? _); [reflexivity|].
    rewrite (enumerate_same_key self self') by exact Hk. reflexivity.
Qed.

End IPRFEdges.

(** ** Byte strings *)

Lemma value_range (b : byte) : 0 <= PyBytes.value b < 256.
Proof.
  unfold PyBytes.value. pose proof (Byte.to_N_bounded b). lia.
Qed.

Lemma value_byte_of (z : Z) : PyBytes.value (PyBytes.byte_of z) = z mod 256.
Proof.
  unfold PyBytes.value, PyBytes.byte_of.
  pose proof (Z.mod_pos_bound z 256 ltac:(lia)) as Hb.
  destruct (Byte.of_N (Z.to_N (z mod 256))) as [b|] eqn:E.
  - apply Byte.to_of_N in E. simpl. rewrite E. lia.
  - apply Byte.of_N_None_iff in E. lia.
Qed.

Lemma from_bytes_snoc (buf : list byte) (b : byte) :
  PyBytes.from_bytes (buf ++ [b]) = PyBytes.from_bytes buf * 256 + PyBytes.value b.
Proof. unfold PyBytes.from_bytes. rewrite fold_left_app. reflexivity. Qed.

Lemma from_bytes_nonneg (buf : list byte) : 0 <= PyBytes.from_bytes buf.
Proof.
  induction buf as [|b buf IH] using rev_ind; [reflexivity|].
  rewrite from_bytes_snoc. pose proof (value_range b). lia.
Qed.

Lemma to_bytes_length (k : nat) (z : Z) : length (PyBytes.to_bytes k z) = k.
Proof.
  revert z. induction k as [|k IH]; intros z; [reflexivity|].
  cbn [PyBytes.to_bytes]. rewrite length_app, IH. simpl. lia.
Qed.

Lemma from_to_bytes (k : nat) (z : Z) :
  PyBytes.from_bytes (PyBytes.to_bytes k z) = z mod 256 ^ Z.of_nat k.
Proof.
  revert z. induction k as [|k IH]; intros z.
  - simpl. rewrite Z.mod_1_r. reflexivity.
  - cbn [PyBytes.to_bytes]. rewrite from_bytes_snoc, IH, value_byte_of.
    rewrite Nat2Z.inj_succ, Z.pow_succ_r by lia.
    rewrite Z.rem_mul_r by lia. lia.
Qed.

Lemma encode_char_cases (c : Z) :
  (PyBytes.surrogate c = true /\ PyBytes.encode_char c = Raise ValueError) \/
  (PyBytes.surrogate c = false /\ exists b, PyBytes.encode_char c = Ok b).
Proof.
  unfold PyBytes.encode_char, PyBytes.surrogate. cbv zeta.
  destruct (Z.ltb_spec c 0x80), (Z.ltb_spec c 0x800), (Z.ltb_spec c 0x10000),
    (Z.leb_spec 0xD800 c), (Z.leb_spec c 0xDFFF); simpl; try lia; eauto.
Qed.

Lemma encode_utf8_cases (s : list Z) :
  (Exists (fun c => PyBytes.surrogate c = true) s /\
   PyBytes.encode_utf8 s = Raise ValueError) \/
  (List.Forall (fun c => PyBytes.surrogate c = false) s /\
   exists b, PyBytes.encode_utf8 s = Ok b).
Proof.
  induction s as [|c s IH]; [right; split; [constructor|eexists; reflexivity]|].
  cbn [PyBytes.encode_utf8].
  destruct (encode_char_cases c) as [[Hs ->]|(Hs & b & ->)].
  - left. split; [apply Exists_cons_hd, Hs|reflexivity].
  - destruct IH as [[Hex ->]|(Hall & r & ->)].
    + left. split; [apply Exists_cons_tl, Hex|reflexivity].
    + right. split; [constructor; assumption|eexists; reflexivity].
Qed.

Lemma encode_utf8_app (s s' : list Z) :
  PyBytes.encode_utf8 (s ++ s') =
    (b ← PyBytes.encode_utf8 s; b' ← PyBytes.encode_utf8 s'; Ok (b ++ b')).
Proof.
  induction s as [|c s IH].
  - simpl. destruct (PyBytes.encode_utf8 s'); reflexivity.
  - cbn [app PyBytes.encode_utf8]. rewrite IH.
    destruct (PyBytes.encode_char c) as [b| |]; try reflexivity.
    destruct (PyBytes.encode_utf8 s) as [r| |]; try reflexivity.
    destruct (PyBytes.encode_utf8 s') as [r'| |]; try reflexivity.
    cbn [mbind res_bind]. rewrite app_assoc. reflexivity.
Qed.

Lemma encode_label :
  PyBytes.encode_utf8 (List.map PyBytes.value KEY_DERIVATION_LABEL)
  = Ok KEY_DERIVATION_LABEL.
Proof. vm_compute. reflexivity. Qed.

(** ** Key derivation *)

Section KeyDerivationExtras.

Variable sha256 : N -> Z -> Z.
Variable math_log2 : Z -> float.

(** X17. [derive_iprf_key] raises (a [UnicodeEncodeError]) exactly when
    the context holds a surrogate code point; otherwise it returns a
    16-byte key, which [IPRF] accepts for every non-zero domain and
    range and which [DeterministicRNG] uses as it is. *)
Theorem derive_iprf_key_result (master_secret : list byte) (context : list Z) :
  (Exists (fun c => 0xD800 <= c <= 0xDFFF) context ->
   derive_iprf_key sha256 master_secret context = Raise ValueError) /\
  (List.Forall (fun c => ~ 0xD800 <= c <= 0xDFFF) context ->
   exists key,
     derive_iprf_key sha256 master_secret context = Ok key /\
     length key = 16%nat /\
     DeterministicRNG.normalize key = key /\
     forall n m, n <> 0 -> m <> 0 ->
       exists self, IPRF.__init__ math_log2 key n m = Ok self /\
                    IPRF.key self = key).
Proof.
  assert (forall c, PyBytes.surrogate c = true <-> 0xD800 <= c <= 0xDFFF) as Hsur.
  { intros c. unfold PyBytes.surrogate. rewrite andb_true_iff, !Z.leb_le. tauto. }
  unfold derive_iprf_key.
  destruct (encode_utf8_cases context) as [[Hex ->]|(Hall & ctx & ->)].
  - split; [reflexivity|]. intros Hnone. exfalso.
    apply List.Exists_exists in Hex as (c & Hin & Hc).
    rewrite List.Forall_forall in Hnone. apply (Hnone c Hin), Hsur, Hc.
  - split.
    + intros Hex. exfalso.
      apply List.Exists_exists in Hex as (c & Hin & Hc).
      rewrite List.Forall_forall in Hall. apply Hsur in Hc.
      rewrite (Hall c Hin) in Hc. discriminate.
    + intros _. eexists. split; [reflexivity|].
      set (key := PyBytes.to_bytes 16 _).
      assert (length key = 16%nat) as Hlen by apply to_bytes_length.
      clearbody key. split; [exact Hlen|]. split.
      * unfold DeterministicRNG.normalize. cbv zeta. rewrite Hlen.
        change (16 <? 16)%nat with false. apply firstn_all2. lia.
      * intros n m Hn Hm. unfold IPRF.__init__. rewrite Hlen.
        destruct (Z.eqb_spec n 0); [lia|]. destruct (Z.eqb_spec m 0); [lia|].
        cbn [negb orb Z.of_nat Pos.of_succ_nat Pos.succ Z.eqb Pos.eqb].
        rewrite AES_ECB_16 by (rewrite Hlen; reflexivity).
        eexists. split; reflexivity.
Qed.

(** X18. The three [update] calls hash one concatenation, so the label
    does not separate the secret from the context: a secret that ends
    in the label and the start of a context gives the key of the shorter
    secret with the longer context. *)
Theorem derive_iprf_key_ambiguous (master_secret : list byte) (c1 c2 : list Z)
    (e1 : list byte) :
  PyBytes.encode_utf8 c1 = Ok e1 ->
  master_secret ++ KEY_DERIVATION_LABEL ++ e1 <> master_secret /\
  derive_iprf_key sha256 (master_secret ++ KEY_DERIVATION_LABEL ++ e1) c2
  = derive_iprf_key sha256 master_secret
      (c1 ++ List.map PyBytes.value KEY_DERIVATION_LABEL ++ c2).
Proof.
  intros He1. split.
  - intros Heq. apply (f_equal (@length byte)) in Heq.
    rewrite !length_app in Heq. simpl in Heq. lia.
  - unfold derive_iprf_key.
    rewrite !encode_utf8_app, He1, encode_label.
    destruct (PyBytes.encode_utf8 c2) as [e2| |]; try reflexivity.
    cbn [mbind res_bind]. rewrite <- !app_assoc. reflexivity.
Qed.

End KeyDerivationExtras.

(** ** The database writer *)

Lemma pack_le_Ok (k : nat) (v : Z) :
  0 <= v < 256 ^ Z.of_nat k ->
  PyBytes.pack_le k v = Ok (rev (PyBytes.to_bytes k v)).
Proof.
  intros H. unfold PyBytes.pack_le.
  destruct (Z.leb_spec 0 v), (Z.ltb_spec v (256 ^ Z.of_nat k)); try lia. reflexivity.
Qed.

Lemma pack_le_Raise (k : nat) (v : Z) :
  ~ 0 <= v < 256 ^ Z.of_nat k -> PyBytes.pack_le k v = Raise StructError.
Proof.
  intros H. unfold PyBytes.pack_le.
  destruct (Z.leb_spec 0 v), (Z.ltb_spec v (256 ^ Z.of_nat k)); try lia; reflexivity.
Qed.

Lemma balance_of_range (bal_bytes : list byte) :
  0 <= BuildDatabase.balance_of bal_bytes < 256 ^ Z.of_nat 8.
Proof.
  unfold BuildDatabase.balance_of, BuildDatabase.clamp_uint64.
  pose proof (from_bytes_nonneg bal_bytes).
  change (Z.shiftl 1 64 - 1) with (2 ^ 64 - 1).
  change (256 ^ Z.of_nat 8) with (2 ^ 64). lia.
Qed.

(** X19. Whatever bytes a row holds as its balance, the balance kept for
    it packs as 8 little-endian bytes, which spell the balance itself
    when it is below [2^64] and [2^64 - 1] otherwise: a larger balance
    is saturated, it neither wraps nor raises. *)
Theorem balance_saturates (bal_bytes : list byte) :
  exists q,
    PyBytes.pack_le 8 (BuildDatabase.balance_of bal_bytes) = Ok q /\
    length q = 8%nat /\
    PyBytes.from_bytes (rev q) = Z.min (PyBytes.from_bytes bal_bytes) (2 ^ 64 - 1).
Proof.
  pose proof (balance_of_range bal_bytes) as Hr.
  eexists. split; [apply pack_le_Ok, Hr|]. split.
  - rewrite length_rev. apply to_bytes_length.
  - rewrite rev_involutive, from_to_bytes, Z.mod_small by exact Hr. reflexivity.
Qed.

Lemma write_entries_spec (entries : list (list byte * list byte)) :
  forall index db map,
    0 <= index <= 2 ^ 32 ->
    let items := List.map (fun e => (e.1, BuildDatabase.balance_of e.2)) entries in
    let count := Z.of_nat (length entries) in
    (index + count <= 2 ^ 32 ->
     exists db' map',
       BuildDatabase.write_entries index items db map = Ok (db', map') /\
       Z.of_nat (length db') = Z.of_nat (length db) + 8 * count /\
       Z.of_nat (length map') =
         Z.of_nat (length map)
         + Z.of_nat (list_sum (List.map (fun e => length e.1) entries)) + 4 * count) /\
    (2 ^ 32 < index + count ->
     BuildDatabase.write_entries index items db map = Raise StructError).
Proof.
  induction entries as [|[addr bal] entries IH]; intros index db map Hi; cbv zeta.
  - simpl. split; [|lia]. intros _. exists db, map. split; [reflexivity|lia].
  - cbn [List.map BuildDatabase.write_entries fst snd].
    rewrite (pack_le_Ok 8) by apply balance_of_range.
    cbn [mbind res_bind]. cbn [length]. rewrite Nat2Z.inj_succ.
    destruct (Z_lt_dec index (2 ^ 32)) as [Hlt|Hge].
    + rewrite (pack_le_Ok 4) by (change (256 ^ Z.of_nat 4) with (2 ^ 32); lia).
      cbn [mbind res_bind].
      specialize (IH (index + 1)
                     (db ++ rev (PyBytes.to_bytes 8 (BuildDatabase.balance_of bal)))
                     (map ++ addr ++ rev (PyBytes.to_bytes 4 index)) ltac:(lia)).
      cbv zeta in IH. destruct IH as [IHok IHbad]. split.
      * intros Hc. destruct IHok as (db' & map' & -> & Hdb & Hmap); [lia|].
        exists db', map'. split; [reflexivity|].
        rewrite !length_app, !length_rev, !to_bytes_length in *.
        cbn [List.map fst].
        change (list_sum (length addr :: ?l)) with (length addr + list_sum l)%nat.
        lia.
      * intros Hc. apply IHbad. lia.
    + rewrite (pack_le_Raise 4) by (change (256 ^ Z.of_nat 4) with (2 ^ 32); lia).
      split; [lia|reflexivity].
Qed.

(** X20. The writing loop of [main], run on the entries collected from
    the rows: with at most [2^32] entries it writes 8 bytes per entry to
    the database and the address followed by 4 bytes per entry to the
    mapping; with more it raises [struct.error], at the index [2^32]. *)
Theorem write_entries_sizes (entries : list (list byte * list byte)) :
  let items := List.map (fun e => (e.1, BuildDatabase.balance_of e.2)) entries in
  let count := Z.of_nat (length entries) in
  (count <= 2 ^ 32 ->
   exists db map,
     BuildDatabase.write_entries 0 items [] [] = Ok (db, map) /\
     Z.of_nat (length db) = 8 * count /\
     Z.of_nat (length map) =
       Z.of_nat (list_sum (List.map (fun e => length e.1) entries)) + 4 * count) /\
  (2 ^ 32 < count ->
   BuildDatabase.write_entries 0 items [] [] = Raise StructError).
Proof.
  pose proof (write_entries_spec entries 0 [] [] ltac:(lia)) as H.
  cbv zeta in *. simpl length in H. rewrite !Z.add_0_l in H. exact H.
Qed.

(** ** An iPRF of negative size *)

Section IPRFNegative.

Variable aes128_ecb : list byte -> Z -> Z.
Variable sha256 : N -> Z -> Z.
Variable math_pow : float -> float -> float.
Variable math_log2 : Z -> float.

Abbreviation new := (IPRF.__init__ math_log2).
Abbreviation forward := (IPRF.forward aes128_ecb sha256 math_pow).
Abbreviation inverse := (IPRF.inverse aes128_ecb sha256 math_pow).

(** X21. The constructor accepts a negative range, and the instance is
    then constant: [forward] returns [0] and [inverse] the empty list,
    whatever the argument and the domain. *)
Theorem negative_range (key : list byte) (n m : Z) (self : IPRF.t) (x y : Z) :
  new key n m = Ok self -> m < 0 ->
  forward self x = Ok 0 /\ inverse self y = Ok [].
Proof.
  intros Hnew Hm.
  destruct (new_Ok _ _ _ _ _ Hnew) as (_ & _ & _ & _ & Hdom & Hran).
  unfold IPRF.forward, IPRF._trace_ball, IPRF.inverse, IPRF._enumerate_balls_in_bin.
  rewrite Hdom, Hran. destruct (Z.eqb_spec m 1); [lia|]. split.
  - destruct (n <=? x); [reflexivity|]. apply trace_loop_leaf. lia.
  - destruct (m <=? y); [reflexivity|].
    rewrite enumerate_skip by lia. reflexivity.
Qed.

(** X22. The constructor accepts a negative domain too. With a range of
    at least two bins, [inverse] then returns the empty list for every
    argument, while [forward(x)] returns [0] for [x >= n] and raises
    [struct.error] for [x < n], on packing the negative domain. *)
Theorem negative_domain (key : list byte) (n m : Z) (self : IPRF.t) (x y : Z) :
  new key n m = Ok self -> n < 0 -> 2 <= m ->
  inverse self y = Ok [] /\
  forward self x = if n <=? x then Ok 0 else Raise StructError.
Proof.
  intros Hnew Hn Hm.
  destruct (new_Ok _ _ _ _ _ Hnew) as (_ & _ & _ & _ & Hdom & Hran).
  unfold IPRF.forward, IPRF._trace_ball, IPRF.inverse, IPRF._enumerate_balls_in_bin.
  rewrite Hdom, Hran. destruct (Z.eqb_spec m 1); [lia|]. split.
  - destruct (m <=? y); [reflexivity|].
    rewrite enumerate_skip by lia. reflexivity.
  - destruct (n <=? x); [reflexivity|].
    unfold IPRF.depth_fuel. apply trace_loop_raise; [lia|].
    destruct (encode_node_cases sha256 0 (m - 1) n) as [(id & _ & Hfits)|[Hbad _]];
      [lia|exact Hbad].
Qed.

End IPRFNegative.

(** * The further properties on the concrete instance *)

Lemma uint64_n_in_range_witness :
  match DeterministicRNG.uint64_n Toy.aes128_ecb (Toy.rng 5) 7 with
  | Ok (v, self') =>
      0 <= v < 7 /\
      DeterministicRNG.key self' = DeterministicRNG.key (Toy.rng 5) /\
      DeterministicRNG.counter (Toy.rng 5) < DeterministicRNG.counter self' <= 2 ^ 64
  | Raise e => e = StructError
  | Diverge => False
  end.
Proof.
  apply (uint64_n_in_range Toy.aes128_ecb (Toy.rng 5) 7).
  - lia.
  - simpl. lia.
Defined.

Lemma uint64_n_power_of_two_witness :
  (Z.land 8 (8 - 1) = 0 <-> exists k, 0 <= k /\ 8 = 2 ^ k) /\
  (Z.land 8 (8 - 1) = 0 ->
   DeterministicRNG.uint64_n Toy.aes128_ecb (Toy.rng 5) 8 =
     Ok (word_at Toy.aes128_ecb (DeterministicRNG.key (Toy.rng 5))
           (DeterministicRNG.counter (Toy.rng 5)) mod 8,
         advance (Toy.rng 5))).
Proof.
  apply (uint64_n_power_of_two Toy.aes128_ecb (Toy.rng 5) 8).
  - lia.
  - unfold Py.U64. simpl. lia.
Defined.

Lemma uint64_n_rejection_witness :
  rejection_threshold 7 mod 7 = 0 /\
  0 <= rejection_threshold 7 <= 2 ^ 64 - 1 /\
  2 ^ 64 - 1 - rejection_threshold 7 < 7 /\
  draw_trace Toy.aes128_ecb (DeterministicRNG.key (Toy.rng 5))
    (rejection_threshold 7) 7 (DeterministicRNG.counter (Toy.rng 5))
    (DeterministicRNG.uint64_n Toy.aes128_ecb (Toy.rng 5) 7).
Proof.
  apply (uint64_n_rejection Toy.aes128_ecb (Toy.rng 5) 7).
  - lia.
  - vm_compute. lia.
  - simpl. lia.
Defined.

Lemma counter_block_injective_witness :
  counter_block (2 ^ 40 + 5) = counter_block (2 ^ 40 + 5) /\
  2 ^ 40 + 5 = 2 ^ 40 + 5.
Proof.
  split; [reflexivity|].
  apply (counter_block_injective (2 ^ 40 + 5) (2 ^ 40 + 5)).
  - unfold Py.U64. lia.
  - unfold Py.U64. lia.
  - reflexivity.
Defined.

Lemma draws_stream_witness :
  draws Toy.aes128_ecb 3 (Toy.rng 5) =
    Ok (List.map (word_at Toy.aes128_ecb (DeterministicRNG.key (Toy.rng 5)))
          (Py.range (DeterministicRNG.counter (Toy.rng 5))
                    (DeterministicRNG.counter (Toy.rng 5) + Z.of_nat 3))).
Proof.
  apply (draws_stream Toy.aes128_ecb 3 (Toy.rng 5)).
  - simpl. lia.
  - unfold Py.U64. simpl. lia.
Defined.

Lemma table_prp_lookup_errors_witness :
  (TablePRP.forward (Toy.prp 7) 9 = Raise ValueError <-> 9 < 0 \/ 7 <= 9) /\
  (TablePRP.inverse (Toy.prp 7) 9 = Raise ValueError <-> 9 < 0 \/ 7 <= 9) /\
  (0 <= 9 < 7 ->
   (exists y, TablePRP.forward (Toy.prp 7) 9 = Ok y /\ 0 <= y < 7) /\
   (exists y, TablePRP.inverse (Toy.prp 7) 9 = Ok y /\ 0 <= y < 7)).
Proof.
  apply (table_prp_lookup_errors Toy.aes128_ecb 7 Toy.key16 (Toy.prp 7) 9).
  - lia.
  - vm_compute. reflexivity.
Defined.

Lemma table_prp_forward_inverse_witness :
  (forall y, 0 <= y < 7 ->
     exists x, TablePRP.inverse (Toy.prp 7) y = Ok x /\ 0 <= x < 7 /\
               TablePRP.forward (Toy.prp 7) x = Ok y) /\
  (forall x1 x2 y,
     TablePRP.forward (Toy.prp 7) x1 = Ok y ->
     TablePRP.forward (Toy.prp 7) x2 = Ok y -> x1 = x2).
Proof.
  apply (table_prp_forward_inverse Toy.aes128_ecb 7 Toy.key16 (Toy.prp 7)).
  - lia.
  - vm_compute. reflexivity.
Defined.

Lemma table_prp_negative_domain_witness :
  exists t,
    TablePRP.__init__ Toy.aes128_ecb (-3) Toy.key16 = Ok t /\
    TablePRP.forward_table t = ∅ /\ TablePRP.inverse_table t = ∅ /\
    TablePRP.verify_bijection t = Ok false /\
    forall x, TablePRP.forward t x = Raise ValueError /\
              TablePRP.inverse t x = Raise ValueError.
Proof.
  apply (table_prp_negative_domain Toy.aes128_ecb (-3) Toy.key16).
  - lia.
  - reflexivity.
Defined.

Lemma forward_monotone_witness :
  exists y y',
    IPRF.forward Toy.aes128_ecb Toy.sha256 Toy.math_pow (Toy.iprf 12 5) 3 = Ok y /\
    IPRF.forward Toy.aes128_ecb Toy.sha256 Toy.math_pow (Toy.iprf 12 5) 8 = Ok y' /\
    y <= y'.
Proof.
  apply (forward_monotone Toy.aes128_ecb Toy.sha256 Toy.math_pow Toy.math_log2
           Toy.key16 12 5 (Toy.iprf 12 5) 3 8).
  - vm_compute. reflexivity.
  - unfold Py.U64. lia.
  - unfold Py.U64. lia.
  - lia.
  - lia.
  - lia.
Defined.





Lemma tree_depth_unused_witness :
  IPRF.forward Toy.aes128_ecb Toy.sha256 Toy.math_pow (Toy.iprf 12 5) 7
  = IPRF.forward Toy.aes128_ecb Toy.sha256 Toy.math_pow
      {| IPRF.key := Toy.key16; IPRF.domain := 12; IPRF.range_size := 5;
         IPRF.tree_depth := 99 |} 7 /\
  IPRF.inverse Toy.aes128_ecb Toy.sha256 Toy.math_pow (Toy.iprf 12 5) 3
  = IPRF.inverse Toy.aes128_ecb Toy.sha256 Toy.math_pow
      {| IPRF.key := Toy.key16; IPRF.domain := 12; IPRF.range_size := 5;
         IPRF.tree_depth := 99 |} 3.
Proof.
  apply (tree_depth_unused Toy.aes128_ecb Toy.sha256 Toy.math_pow (Toy.iprf 12 5)
           {| IPRF.key := Toy.key16; IPRF.domain := 12; IPRF.range_size := 5;
              IPRF.tree_depth := 99 |} 7 3).
  - reflexivity.
  - reflexivity.
  - reflexivity.
Defined.

Lemma derive_iprf_key_ambiguous_witness :
  [x01] ++ KEY_DERIVATION_LABEL ++ [x61] <> [x01] /\
  derive_iprf_key Toy.sha256 ([x01] ++ KEY_DERIVATION_LABEL ++ [x61]) [0x62]
  = derive_iprf_key Toy.sha256 [x01]
      ([0x61] ++ List.map PyBytes.value KEY_DERIVATION_LABEL ++ [0x62]).
Proof.
  apply (derive_iprf_key_ambiguous Toy.sha256 [x01] [0x61] [0x62] [x61]).
  vm_compute. reflexivity.
Defined.

Lemma negative_range_witness :
  IPRF.forward Toy.aes128_ecb Toy.sha256 Toy.math_pow (Toy.iprf 12 (-5)) 7 = Ok 0 /\
  IPRF.inverse Toy.aes128_ecb Toy.sha256 Toy.math_pow (Toy.iprf 12 (-5)) (-7) = Ok [].
Proof.
  apply (negative_range Toy.aes128_ecb Toy.sha256 Toy.math_pow Toy.math_log2
           Toy.key16 12 (-5) (Toy.iprf 12 (-5)) 7 (-7)).
  - vm_compute. reflexivity.
  - lia.
Defined.

Lemma negative_domain_witness :
  IPRF.inverse Toy.aes128_ecb Toy.sha256 Toy.math_pow (Toy.iprf (-12) 5) 3 = Ok [] /\
  IPRF.forward Toy.aes128_ecb Toy.sha256 Toy.math_pow (Toy.iprf (-12) 5) (-20)
  = if -12 <=? -20 then Ok 0 else Raise StructError.
Proof.
  apply (negative_domain Toy.aes128_ecb Toy.sha256 Toy.math_pow Toy.math_log2
           Toy.key16 (-12) 5 (Toy.iprf (-12) 5) (-20) 3).
  - vm_compute. reflexivity.
  - lia.
  - lia.
Defined.
